(** * Debiasers of [allennlp/fairness/debiasers.py]

    A shallow embedding of [HardDebiaser.forward] and
    [LinearDebiaser.forward] together with the part of the tensor library
    they call: [torch.matmul], [Tensor.reshape(-1, 1)], [torch.dot], the
    broadcasting element-wise operators [*], [/] and [-], and the
    [torch.set_grad_enabled] context manager.

    Tensors are stored the way the library stores a contiguous tensor: a
    list of sizes and a flat, row-major list of scalars.  The scalar type is
    a parameter (a type class), so the same code is run
    - on exact rationals [Qc] (every finite floating-point number is a
      rational; this is the reading "in exact arithmetic"), and
    - on rationals extended with the special values of IEEE arithmetic
      (infinities and not-a-number), where division by zero is defined.

    Where the dtype of the operands matters (which errors can come out),
    the same two bodies are run over tensors that carry their dtype. *)

From Stdlib Require Import List Arith Bool Lia ZArith QArith Qcanon Field.
Import ListNotations.

Close Scope Qc_scope.
Close Scope Q_scope.
Open Scope nat_scope.

(** ** Scalars *)

Class Scalar (A : Type) : Type := {
  szero : A;
  sadd : A -> A -> A;
  ssub : A -> A -> A;
  smul : A -> A -> A;
  sdiv : A -> A -> A
}.

(** ** Errors, results and the interpreter state

    Every failure of the modelled library calls is a [RuntimeError] about
    sizes; it is called [ShapeMismatch] here.  [OutsideModel] marks operand
    ranks of [matmul] that the debiasers never produce and that this
    development does not describe.  [DtypeMismatch] is the [RuntimeError] of
    [matmul] and [dot] on operands of different dtypes; it is raised in the
    layer of tensors that carry their dtype ([Typed], below). *)

Inductive error : Type :=
| ShapeMismatch
| OutsideModel
| DtypeMismatch.

Inductive result (X : Type) : Type :=
| Ok (x : X)
| Raise (err : error).

Arguments Ok {X} x.
Arguments Raise {X} err.

(** The only global state the code touches is the autograd mode. *)
Record state : Type := mkState { grad_enabled : bool }.

Definition M (X : Type) : Type := state -> result X * state.

Definition ret {X} (x : X) : M X := fun st => (Ok x, st).

Definition raise {X} (err : error) : M X := fun st => (Raise err, st).

Definition bind {X Y} (c : M X) (k : X -> M Y) : M Y :=
  fun st =>
    match c st with
    | (Ok x, st') => k x st'
    | (Raise err, st') => (Raise err, st')
    end.

Declare Scope torch_scope.
Delimit Scope torch_scope with torch.
Notation "x <- c ;; k" := (bind c (fun x => k))
  (at level 100, c at next level, right associativity) : torch_scope.
Open Scope torch_scope.

Definition is_grad_enabled : M bool := fun st => (Ok (grad_enabled st), st).

(** [with torch.set_grad_enabled(mode): body].  The mode is set on entry and
    the previous mode is put back on exit, also when [body] raises. *)
Definition set_grad_enabled {X} (mode : bool) (body : M X) : M X :=
  fun st =>
    let prev := grad_enabled st in
    let (r, _) := body (mkState mode) in
    (r, mkState prev).

(** ** Tensors *)

Module Torch.
Section Ops.

Context {A : Type} `{Scalar A}.

Record tensor : Type := mkTensor {
  shape : list nat;
  data : list A;
  requires_grad : bool
}.

Definition numel (s : list nat) : nat := fold_right Nat.mul 1 s.

(** The flat storage has one scalar per index of the shape. *)
Definition well_formed (t : tensor) : Prop :=
  length (data t) = numel (shape t).

Definition item (t : tensor) (k : nat) : A := nth k (data t) szero.

(** Leading sizes and trailing size of a shape; [None] for a 0-d tensor. *)
Definition split_last (s : list nat) : option (list nat * nat) :=
  match rev s with
  | [] => None
  | d :: l => Some (rev l, d)
  end.

Definition trailing_dim (t : tensor) : option nat :=
  option_map snd (split_last (shape t)).

(** A result is recorded for backpropagation when the grad mode is on and
    some operand requires a gradient. *)
Definition tracked (g : bool) (x y : tensor) : bool :=
  g && (requires_grad x || requires_grad y).

Fixpoint sum_upto (n : nat) (f : nat -> A) : A :=
  match n with
  | O => szero
  | S m => sadd (sum_upto m f) (f m)
  end.

(** [t.reshape(-1, 1)]: the same storage seen as a column. *)
Definition reshape_col (t : tensor) : M tensor :=
  g <- is_grad_enabled ;;
  ret {| shape := [numel (shape t); 1];
         data := data t;
         requires_grad := g && requires_grad t |}.

(** [torch.matmul(x, w)] for a 2-d second operand [w] of sizes [k, p]:
    [x] of sizes [lead ++ [d]] needs [d = k], and the product has sizes
    [lead ++ [p]] (for a 1-d [x] the library prepends a size 1 and removes it
    again, which gives the same [[p]]).  A 0-d [x] is refused. *)
Definition matmul (x w : tensor) : M tensor :=
  g <- is_grad_enabled ;;
  match shape w with
  | [k; p] =>
      match split_last (shape x) with
      | None => raise ShapeMismatch
      | Some (lead, d) =>
          if d =? k then
            ret {| shape := lead ++ [p];
                   data := map (fun i =>
                                  sum_upto d (fun t =>
                                    smul (item x ((i / p) * d + t))
                                         (item w (t * p + i mod p))))
                               (seq 0 (numel lead * p));
                   requires_grad := tracked g x w |}
          else raise ShapeMismatch
      end
  | _ => raise OutsideModel
  end.

(** [torch.dot(x, y)]: both 1-d with the same number of elements; the result
    is a 0-d tensor. *)
Definition dot (x y : tensor) : M tensor :=
  g <- is_grad_enabled ;;
  match shape x, shape y with
  | [n], [m] =>
      if n =? m then
        ret {| shape := [];
               data := [sum_upto n (fun t => smul (item x t) (item y t))];
               requires_grad := tracked g x y |}
      else raise ShapeMismatch
  | _, _ => raise ShapeMismatch
  end.

(** Broadcasting, on shapes written last size first: sizes are compared from
    the trailing one; two sizes are compatible when they are equal or one of
    them is 1; a missing size counts as 1. *)
Fixpoint broadcast_rev (s1 s2 : list nat) : option (list nat) :=
  match s1, s2 with
  | [], s => Some s
  | s, [] => Some s
  | a :: s1', b :: s2' =>
      match broadcast_rev s1' s2' with
      | None => None
      | Some s =>
          if a =? b then Some (a :: s)
          else if a =? 1 then Some (b :: s)
          else if b =? 1 then Some (a :: s)
          else None
      end
  end.

Definition broadcast_shapes (s1 s2 : list nat) : option (list nat) :=
  option_map (@rev nat) (broadcast_rev (rev s1) (rev s2)).

(** Flat index into an operand of (reversed) sizes [sx] for the flat index
    [k] of the broadcast result of (reversed) sizes [s]: along a size-1 axis
    of the operand the index is 0, along an absent axis nothing is added. *)
Fixpoint source_index (sx s : list nat) (k : nat) : nat :=
  match sx, s with
  | a :: sx', n :: s' =>
      (if a =? 1 then 0 else k mod n) + a * source_index sx' s' (k / n)
  | _, _ => 0
  end.

Definition pointwise (f : A -> A -> A) (x y : tensor) : M tensor :=
  g <- is_grad_enabled ;;
  match broadcast_shapes (shape x) (shape y) with
  | None => raise ShapeMismatch
  | Some s =>
      ret {| shape := s;
             data := map (fun k =>
                            f (item x (source_index (rev (shape x)) (rev s) k))
                              (item y (source_index (rev (shape y)) (rev s) k)))
                         (seq 0 (numel s));
             requires_grad := tracked g x y |}
  end.

Definition mul : tensor -> tensor -> M tensor := pointwise smul.
Definition div : tensor -> tensor -> M tensor := pointwise sdiv.
Definition sub : tensor -> tensor -> M tensor := pointwise ssub.

(** The vectors of a tensor are its slices along the last axis: with
    trailing size [n], the [i]-th one is the [n] consecutive entries of the
    storage that start at [i * n]. *)
Definition vector_at (t : tensor) (n i : nat) : list A :=
  firstn n (skipn (i * n) (data t)).

Definition vectors (t : tensor) : list (list A) :=
  match split_last (shape t) with
  | None => []
  | Some (lead, n) => map (vector_at t n) (seq 0 (numel lead))
  end.

(** Inner product of two vectors. *)
Definition inner (u v : list A) : A :=
  fold_left (fun acc xy => sadd acc (smul (fst xy) (snd xy)))
            (combine u v) szero.


End Ops.
Arguments tensor A : clear implicits.
End Torch.

Import Torch.

(** ** The debiasers *)

Record Debiaser : Type := mkDebiaser { requires_grad : bool }.

Module HardDebiaser.
Section Forward.
Context {A : Type} `{Scalar A}.

(** [embeddings - matmul(embeddings, bias_direction.reshape(-1, 1))
                  * bias_direction / dot(bias_direction, bias_direction)] *)
Definition forward (self : Debiaser) (embeddings bias_direction : tensor A)
  : M (tensor A) :=
  set_grad_enabled (requires_grad self)
    (col <- reshape_col bias_direction ;;
     m <- matmul embeddings col ;;
     p <- mul m bias_direction ;;
     d <- dot bias_direction bias_direction ;;
     q <- div p d ;;
     sub embeddings q).

End Forward.
End HardDebiaser.

Module LinearDebiaser.
Section Forward.
Context {A : Type} `{Scalar A}.

(** [embeddings - matmul(embeddings, bias_direction.reshape(-1, 1))
                  * bias_direction] *)
Definition forward (self : Debiaser) (embeddings bias_direction : tensor A)
  : M (tensor A) :=
  set_grad_enabled (requires_grad self)
    (col <- reshape_col bias_direction ;;
     m <- matmul embeddings col ;;
     p <- mul m bias_direction ;;
     sub embeddings p).

End Forward.
End LinearDebiaser.

(** ** Tensors with their dtype

    The definitions above are about operands of one dtype.  Here a tensor
    carries its dtype; the floating-point dtypes [float32] and [float64] are
    described (the scalars stay those of the parameter [A]).  [matmul] and
    [dot] refuse operands of different dtypes, after their check of the
    sizes; the element-wise operators promote instead.  The two [forward]
    bodies are the same expressions over these operations. *)

Inductive dtype : Type :=
| Float32
| Float64.

Module Typed.
Section Ops.

Context {A : Type} `{Scalar A}.

Record tensor : Type := mkTyped {
  dtype_of : dtype;
  values : Torch.tensor A
}.

Definition dtype_eqb (a b : dtype) : bool :=
  match a, b with
  | Float32, Float32 | Float64, Float64 => true
  | _, _ => false
  end.

Definition promote (a b : dtype) : dtype :=
  match a, b with
  | Float32, Float32 => Float32
  | _, _ => Float64
  end.

(** Dtype of an element-wise result: a 0-d operand does not take part when
    the other operand has axes (both dtypes are floating-point). *)
Definition result_dtype (x y : tensor) : dtype :=
  match shape (values x), shape (values y) with
  | [], _ :: _ => dtype_of y
  | _ :: _, [] => dtype_of x
  | _, _ => promote (dtype_of x) (dtype_of y)
  end.

Definition reshape_col (t : tensor) : M tensor :=
  v <- Torch.reshape_col (values t) ;;
  ret {| dtype_of := dtype_of t; values := v |}.

Definition same_dtype_op
           (op : Torch.tensor A -> Torch.tensor A -> M (Torch.tensor A))
           (x y : tensor) : M tensor :=
  v <- op (values x) (values y) ;;
  if dtype_eqb (dtype_of x) (dtype_of y)
  then ret {| dtype_of := dtype_of x; values := v |}
  else raise DtypeMismatch.

Definition promoting_op
           (op : Torch.tensor A -> Torch.tensor A -> M (Torch.tensor A))
           (x y : tensor) : M tensor :=
  v <- op (values x) (values y) ;;
  ret {| dtype_of := result_dtype x y; values := v |}.

Definition matmul : tensor -> tensor -> M tensor :=
  same_dtype_op Torch.matmul.
Definition dot : tensor -> tensor -> M tensor := same_dtype_op Torch.dot.
Definition mul : tensor -> tensor -> M tensor := promoting_op Torch.mul.
Definition div : tensor -> tensor -> M tensor := promoting_op Torch.div.
Definition sub : tensor -> tensor -> M tensor := promoting_op Torch.sub.

End Ops.
Arguments tensor A : clear implicits.

Module HardDebiaser.
Section Forward.
Context {A : Type} `{Scalar A}.

Definition forward (self : Debiaser) (embeddings bias_direction : tensor A)
  : M (tensor A) :=
  set_grad_enabled (requires_grad self)
    (col <- reshape_col bias_direction ;;
     m <- matmul embeddings col ;;
     p <- mul m bias_direction ;;
     d <- dot bias_direction bias_direction ;;
     q <- div p d ;;
     sub embeddings q).

End Forward.
End HardDebiaser.

Module LinearDebiaser.
Section Forward.
Context {A : Type} `{Scalar A}.

Definition forward (self : Debiaser) (embeddings bias_direction : tensor A)
  : M (tensor A) :=
  set_grad_enabled (requires_grad self)
    (col <- reshape_col bias_direction ;;
     m <- matmul embeddings col ;;
     p <- mul m bias_direction ;;
     sub embeddings p).

End Forward.
End LinearDebiaser.

End Typed.

(** ** Scalar instances *)

#[export] Instance Qc_Scalar : Scalar Qc := {
  szero := 0%Qc;
  sadd := Qcplus;
  ssub := Qcminus;
  smul := Qcmult;
  sdiv := Qcdiv
}.

(** Rationals with the special values of IEEE 754 arithmetic.  Finite
    values are computed exactly (no rounding, no overflow, one zero); the
    special values follow the standard: an undefined operation ([0 / 0],
    [inf - inf], [0 * inf], [inf / inf]) gives not-a-number, a non-zero value
    divided by zero gives an infinity, and not-a-number propagates. *)
Inductive ieee : Type :=
| Fin (q : Qc)
| PInf
| NInf
| NaN.

Definition ieee_neg (x : ieee) : ieee :=
  match x with
  | Fin q => Fin (- q)%Qc
  | PInf => NInf
  | NInf => PInf
  | NaN => NaN
  end.

Definition ieee_add (x y : ieee) : ieee :=
  match x, y with
  | NaN, _ | _, NaN => NaN
  | Fin p, Fin q => Fin (p + q)%Qc
  | PInf, NInf | NInf, PInf => NaN
  | PInf, _ | _, PInf => PInf
  | NInf, _ | _, NInf => NInf
  end.

Definition ieee_sub (x y : ieee) : ieee := ieee_add x (ieee_neg y).

(** An infinity of sign [pos] scaled by the finite value [q]. *)
Definition scaled_inf (pos : bool) (q : Qc) : ieee :=
  match (q ?= 0)%Qc with
  | Eq => NaN
  | Gt => if pos then PInf else NInf
  | Lt => if pos then NInf else PInf
  end.

Definition ieee_mul (x y : ieee) : ieee :=
  match x, y with
  | NaN, _ | _, NaN => NaN
  | Fin p, Fin q => Fin (p * q)%Qc
  | Fin p, PInf | PInf, Fin p => scaled_inf true p
  | Fin p, NInf | NInf, Fin p => scaled_inf false p
  | PInf, PInf | NInf, NInf => PInf
  | PInf, NInf | NInf, PInf => NInf
  end.

Definition ieee_div (x y : ieee) : ieee :=
  match x, y with
  | NaN, _ | _, NaN => NaN
  | Fin p, Fin q =>
      match (q ?= 0)%Qc with
      | Eq => scaled_inf true p
      | _ => Fin (p / q)%Qc
      end
  | Fin _, PInf | Fin _, NInf => Fin 0%Qc
  | PInf, Fin q =>
      match (q ?= 0)%Qc with Lt => NInf | _ => PInf end
  | NInf, Fin q =>
      match (q ?= 0)%Qc with Lt => PInf | _ => NInf end
  | _, _ => NaN
  end.

#[export] Instance ieee_Scalar : Scalar ieee := {
  szero := Fin 0%Qc;
  sadd := ieee_add;
  ssub := ieee_sub;
  smul := ieee_mul;
  sdiv := ieee_div
}.

Definition is_finite (x : ieee) : Prop :=
  match x with
  | Fin _ => True
  | _ => False
  end.

(** The claim about a zero direction, read for one variant: the call returns
    and some entry of the result is not-a-number. *)
Definition nan_in_result
           (fwd : Debiaser -> tensor ieee -> tensor ieee -> M (tensor ieee))
           (self : Debiaser) (e b : tensor ieee) (st : state) : Prop :=
  exists out, fwd self e b st = (Ok out, st) /\ Exists (eq NaN) (data out).

(** [forward(forward(e, b), b) = forward(e, b)], both calls returning. *)
Definition idempotent_at {A : Type} `{Scalar A}
           (fwd : Debiaser -> tensor A -> tensor A -> M (tensor A))
           (self : Debiaser) (e b : tensor A) (st : state) : Prop :=
  exists out, fwd self e b st = (Ok out, st) /\ fwd self out b st = (Ok out, st).

(** Concrete inputs. *)
Definition qc (z : Z) (p : positive) : Qc := Q2Qc (z # p).

Definition tensor_of (s : list nat) (d : list Qc) : tensor Qc :=
  {| shape := s; data := d; Torch.requires_grad := false |}.

Definition eye2 : tensor Qc :=
  tensor_of [2; 2] [qc 1 1; qc 0 1; qc 0 1; qc 1 1].

Definition vec34 : tensor Qc := tensor_of [2] [qc 3 1; qc 4 1].

Definition antidiag2 : tensor Qc :=
  tensor_of [2; 2] [qc 0 1; qc (-1) 1; qc (-1) 1; qc 0 1].

Definition row123 : tensor Qc := tensor_of [1; 3] [qc 1 1; qc 2 1; qc 3 1].

Definition tracked34 : tensor Qc :=
  {| shape := [2]; data := [qc 3 1; qc 4 1]; Torch.requires_grad := true |}.

Definition ones2 : tensor Qc := tensor_of [2] [qc 1 1; qc 1 1].

Definition axis2 : tensor Qc := tensor_of [2] [qc 1 1; qc 0 1].

Definition unit35 : tensor Qc := tensor_of [2] [qc 3 5; qc 4 5].

Definition batch212 : tensor Qc :=
  tensor_of [2; 1; 2] [qc 3 1; qc 4 1; qc (-1) 2; qc 7 1].

Definition float_of (t : tensor Qc) : tensor ieee :=
  {| shape := shape t;
     data := map Fin (data t);
     Torch.requires_grad := Torch.requires_grad t |}.

Definition zeros2 : tensor ieee := float_of (tensor_of [2] [qc 0 1; qc 0 1]).

Definition plain : Debiaser := {| requires_grad := false |}.

Definition grad_on : state := {| grad_enabled := true |}.

(** ** Notions used in the statements *)

Section Notions.

Context {A : Type} `{Scalar A}.

(** The entries the two formulas compute, in closed form: [row_dot] is the
    entry of [matmul(embeddings, bias_direction.reshape(-1, 1))] for row [i],
    [sq_norm] the value of [dot(bias_direction, bias_direction)]. *)
Definition row_dot (e b : tensor A) (n i : nat) : A :=
  sum_upto n (fun t => smul (item e (i * n + t)) (item b t)).

Definition sq_norm (b : tensor A) (n : nat) : A :=
  sum_upto n (fun t => smul (item b t) (item b t)).

Definition hard_entry (e b : tensor A) (n k : nat) : A :=
  ssub (item e k)
       (sdiv (smul (row_dot e b n (k / n)) (item b (k mod n))) (sq_norm b n)).

Definition linear_entry (e b : tensor A) (n k : nat) : A :=
  ssub (item e k) (smul (row_dot e b n (k / n)) (item b (k mod n))).

(** Two tensors with the same sizes and the same entries; they may differ in
    whether they are recorded for backpropagation. *)
Definition same_numeric (x y : tensor A) : Prop :=
  shape x = shape y /\ data x = data y.

(** What a caller can observe of the numbers of a result: the sizes and the
    entries of the returned tensor, or the error raised. *)
Definition numeric (r : result (tensor A)) : result (list nat * list A) :=
  match r with
  | Ok t => Ok (shape t, data t)
  | Raise err => Raise err
  end.

Definition same_outcome (r r' : result (tensor A)) : Prop :=
  match r, r' with
  | Ok t, Ok t' => same_numeric t t'
  | Raise err, Raise err' => err = err'
  | _, _ => False
  end.

End Notions.

Definition zero_or_nan (x : ieee) : Prop := x = Fin 0%Qc \/ x = NaN.

(** A single vector seen as a 1-d tensor, as when a caller passes one
    embedding instead of a batch. *)
Definition vector_tensor {A : Type} (v : list A) (g : bool) : tensor A :=
  {| shape := [length v]; data := v; Torch.requires_grad := g |}.

(** The storage of [t] seen as one vector of length [n]. *)
Definition as_vector {A : Type} (n : nat) (t : tensor A) : tensor A :=
  {| shape := [n]; data := data t;
     Torch.requires_grad := Torch.requires_grad t |}.

(** [c * t]: every entry multiplied by the number [c]. *)
Definition scaled (c : Qc) (t : tensor Qc) : tensor Qc :=
  {| shape := shape t;
     data := map (Qcmult c) (data t);
     Torch.requires_grad := Torch.requires_grad t |}.

(** [c1 * x + c2 * y] for two tensors of the same sizes. *)
Definition lincomb (c1 : Qc) (x : tensor Qc) (c2 : Qc) (y : tensor Qc)
  : tensor Qc :=
  {| shape := shape x;
     data := map (fun xy => (c1 * fst xy + c2 * snd xy)%Qc)
                 (combine (data x) (data y));
     Torch.requires_grad := Torch.requires_grad x || Torch.requires_grad y |}.

(** More concrete inputs. *)
Definition row_ones2 : tensor Qc := tensor_of [1; 2] [qc 1 1; qc 1 1].

Definition perp2 : tensor Qc := tensor_of [2] [qc 1 1; qc (-1) 1].

Definition perp_batch : tensor Qc :=
  tensor_of [2; 2] [qc 2 1; qc (-2) 1; qc (-1) 3; qc 1 3].

Definition nan_batch : tensor ieee :=
  {| shape := [2; 2];
     data := [Fin (qc 1 1); NaN; Fin (qc 3 1); Fin (qc 4 1)];
     Torch.requires_grad := false |}.

Definition batch22 : tensor Qc := tensor_of [2; 2] (data batch212).

Definition grad_off : state := {| grad_enabled := false |}.




Definition row123_double : Typed.tensor Qc :=
  {| Typed.dtype_of := Float64; Typed.values := row123 |}.

(** [Debiaser.__init__(self, requires_grad: bool = False)]: the flag is
    stored as given, [False] when the argument is left out.  The two
    subclasses inherit it unchanged. *)
Definition __init__ (requires_grad : option bool) : Debiaser :=
  {| requires_grad := match requires_grad with
                      | Some flag => flag
                      | None => false
                      end |}.

Definition with_grad : Debiaser := {| requires_grad := true |}.

(** ** Shapes and indices *)

Section ShapeFacts.

Lemma numel_app (s1 s2 : list nat) : numel (s1 ++ s2) = numel s1 * numel s2.
Proof.
  induction s1 as [|a s1 IH]; simpl.
  - lia.
  - rewrite IH. lia.
Qed.

Lemma numel_snoc (lead : list nat) (n : nat) :
  numel (lead ++ [n]) = numel lead * n.
Proof. rewrite numel_app. simpl. lia. Qed.

Lemma numel_rev (s : list nat) : numel (rev s) = numel s.
Proof.
  induction s as [|a s IH]; simpl; [reflexivity|].
  rewrite numel_snoc, IH. lia.
Qed.

Lemma split_last_snoc (lead : list nat) (d : nat) :
  split_last (lead ++ [d]) = Some (lead, d).
Proof.
  unfold split_last. rewrite rev_app_distr. simpl.
  now rewrite rev_involutive.
Qed.

Lemma split_last_Some (s lead : list nat) (d : nat) :
  split_last s = Some (lead, d) -> s = lead ++ [d].
Proof.
  unfold split_last. intros E.
  destruct (rev s) as [|x l] eqn:R; [discriminate|].
  injection E as <- <-.
  rewrite <- (rev_involutive s), R. reflexivity.
Qed.

Lemma broadcast_rev_nil_r (s : list nat) : broadcast_rev s [] = Some s.
Proof. now destruct s. Qed.

Lemma broadcast_rev_same (s : list nat) : broadcast_rev s s = Some s.
Proof.
  induction s as [|a s IH]; simpl; [reflexivity|].
  now rewrite IH, Nat.eqb_refl.
Qed.

Lemma broadcast_shapes_same (s : list nat) : broadcast_shapes s s = Some s.
Proof.
  unfold broadcast_shapes. rewrite broadcast_rev_same. simpl.
  now rewrite rev_involutive.
Qed.

Lemma broadcast_shapes_scalar (s : list nat) : broadcast_shapes s [] = Some s.
Proof.
  unfold broadcast_shapes. simpl. rewrite broadcast_rev_nil_r. simpl.
  now rewrite rev_involutive.
Qed.

(** A column [lead ++ [1]] against a vector [[n]] gives [lead ++ [n]]. *)
Lemma broadcast_shapes_col (lead : list nat) (n : nat) :
  broadcast_shapes (lead ++ [1]) [n] = Some (lead ++ [n]).
Proof.
  unfold broadcast_shapes. rewrite rev_app_distr. simpl.
  rewrite broadcast_rev_nil_r.
  destruct n as [|[|n]]; simpl; now rewrite rev_involutive.
Qed.

Lemma source_index_same (s : list nat) :
  forall k, k < numel s -> source_index s s k = k.
Proof.
  induction s as [|a s IH]; simpl; intros k Hk.
  - lia.
  - assert (a <> 0) by (intros ->; simpl in Hk; lia).
    assert (k / a < numel s).
    { apply Nat.Div0.div_lt_upper_bound. lia. }
    rewrite IH by assumption.
    destruct (Nat.eqb_spec a 1) as [->|_].
    + rewrite Nat.div_1_r. lia.
    + pose proof (Nat.div_mod_eq k a). lia.
Qed.

Lemma source_index_col (l : list nat) (n k : nat) :
  k < numel l * n -> source_index (1 :: l) (n :: l) k = k / n.
Proof.
  intros Hk. simpl.
  rewrite source_index_same; [lia|].
  apply Nat.Div0.div_lt_upper_bound. lia.
Qed.

Lemma source_index_vec (l : list nat) (n k : nat) :
  source_index [n] (n :: l) k = k mod n.
Proof.
  simpl. destruct (Nat.eqb_spec n 1) as [->|_].
  - rewrite Nat.mod_1_r. lia.
  - lia.
Qed.

Lemma nth_map_seq {B : Type} (f : nat -> B) (N k : nat) (d : B) :
  k < N -> nth k (map f (seq 0 N)) d = f k.
Proof.
  intros Hk.
  rewrite nth_indep with (d' := f 0) by now rewrite length_map, length_seq.
  rewrite (map_nth f (seq 0 N) 0 k), seq_nth by assumption.
  reflexivity.
Qed.

End ShapeFacts.

(** ** Running the library calls *)

Section Runs.

Context {A : Type} `{Scalar A}.

Lemma sum_upto_ext (n : nat) (f g : nat -> A) :
  (forall t, t < n -> f t = g t) -> sum_upto n f = sum_upto n g.
Proof.
  induction n as [|n IH]; simpl; intros E; [reflexivity|].
  rewrite IH by (intros; apply E; lia).
  now rewrite E by lia.
Qed.

Lemma reshape_col_run (t : tensor A) (st : state) :
  reshape_col t st =
  (Ok {| shape := [numel (shape t); 1];
         data := data t;
         Torch.requires_grad := grad_enabled st && Torch.requires_grad t |},
   st).
Proof. reflexivity. Qed.

Lemma matmul_run (x w : tensor A) (lead : list nat) (d p : nat) (st : state) :
  shape x = lead ++ [d] ->
  shape w = [d; p] ->
  matmul x w st =
  (Ok {| shape := lead ++ [p];
         data := map (fun i =>
                        sum_upto d (fun t =>
                          smul (item x ((i / p) * d + t))
                               (item w (t * p + i mod p))))
                     (seq 0 (numel lead * p));
         Torch.requires_grad := tracked (grad_enabled st) x w |},
   st).
Proof.
  intros Hx Hw. unfold matmul, bind, is_grad_enabled.
  rewrite Hw, Hx, split_last_snoc, Nat.eqb_refl. reflexivity.
Qed.

Lemma dot_run (x y : tensor A) (n : nat) (st : state) :
  shape x = [n] ->
  shape y = [n] ->
  dot x y st =
  (Ok {| shape := [];
         data := [sum_upto n (fun t => smul (item x t) (item y t))];
         Torch.requires_grad := tracked (grad_enabled st) x y |},
   st).
Proof.
  intros Hx Hy. unfold dot, bind, is_grad_enabled.
  rewrite Hx, Hy, Nat.eqb_refl. reflexivity.
Qed.

Lemma pointwise_run (f : A -> A -> A) (x y : tensor A) (s : list nat)
      (st : state) :
  broadcast_shapes (shape x) (shape y) = Some s ->
  pointwise f x y st =
  (Ok {| shape := s;
         data := map (fun k =>
                        f (item x (source_index (rev (shape x)) (rev s) k))
                          (item y (source_index (rev (shape y)) (rev s) k)))
                     (seq 0 (numel s));
         Torch.requires_grad := tracked (grad_enabled st) x y |},
   st).
Proof.
  intros E. unfold pointwise, bind, is_grad_enabled. now rewrite E.
Qed.

Lemma tracked_chain (g re rb : bool) :
  g && (re || g && (g && (g && (re || g && rb) || rb) || g && (rb || rb)))
  = g && (re || rb).
Proof. now destruct g, re, rb. Qed.

Lemma tracked_chain_linear (g re rb : bool) :
  g && (re || g && (g && (re || g && rb) || rb)) = g && (re || rb).
Proof. now destruct g, re, rb. Qed.

(** The product [matmul(e, col) * b] entry by entry. *)
Lemma projection_entries (e b col m : tensor A) (lead : list nat) (n : nat) :
  shape b = [n] ->
  data col = data b ->
  shape m = lead ++ [1] ->
  data m = map (fun i => sum_upto n (fun t =>
                  smul (item e ((i / 1) * n + t))
                       (item col (t * 1 + i mod 1))))
               (seq 0 (numel lead * 1)) ->
  forall k, k < numel lead * n ->
    smul (item m (source_index (rev (shape m)) (rev (lead ++ [n])) k))
         (item b (source_index (rev (shape b)) (rev (lead ++ [n])) k))
    = smul (row_dot e b n (k / n)) (item b (k mod n)).
Proof.
  intros Hb Hcol Hm Hdm k Hk.
  rewrite Hm, Hb, !rev_app_distr. simpl rev. simpl app.
  rewrite source_index_col by now rewrite numel_rev.
  rewrite source_index_vec.
  assert (Hq : k / n < numel lead * 1).
  { rewrite Nat.mul_1_r. apply Nat.Div0.div_lt_upper_bound. lia. }
  unfold item at 1. rewrite Hdm, nth_map_seq by exact Hq.
  f_equal. unfold row_dot. apply sum_upto_ext. intros t _.
  rewrite Nat.div_1_r, Nat.mod_1_r, Nat.mul_1_r, Nat.add_0_r.
  unfold item. now rewrite Hcol.
Qed.

End Runs.

(** ** What [forward] returns *)

Section ForwardRuns.

Context {A : Type} `{Scalar A}.

(** On a 1-d [bias_direction] of length [n] and [embeddings] of sizes
    [lead ++ [n]], [HardDebiaser.forward] returns, without raising, the tensor
    of the same sizes whose entries are [hard_entry], and puts the grad mode
    back. *)
Lemma Hard_forward_run (self : Debiaser) (e b : tensor A) (lead : list nat)
      (n : nat) (st : state) :
  shape e = lead ++ [n] ->
  shape b = [n] ->
  HardDebiaser.forward self e b st =
  (Ok {| shape := lead ++ [n];
         data := map (hard_entry e b n) (seq 0 (numel lead * n));
         Torch.requires_grad :=
           requires_grad self
           && (Torch.requires_grad e || Torch.requires_grad b) |},
   st).
Proof.
  intros He Hb. destruct st as [g0].
  unfold HardDebiaser.forward, set_grad_enabled.
  set (g := requires_grad self). simpl grad_enabled.
  unfold bind at 1. rewrite reshape_col_run.
  set (col := {| shape := [numel (shape b); 1]; data := data b;
                 Torch.requires_grad := _ |}).
  assert (Hcol : shape col = [n; 1]).
  { simpl. rewrite Hb. simpl. now rewrite Nat.mul_1_r. }
  unfold bind at 1. rewrite (matmul_run e col lead n 1 (mkState g) He Hcol).
  set (m := {| shape := lead ++ [1]; data := _; Torch.requires_grad := _ |}).
  unfold mul, div, sub.
  unfold bind at 1.
  rewrite (pointwise_run smul m b (lead ++ [n]) (mkState g)).
  2:{ simpl shape. rewrite Hb. apply broadcast_shapes_col. }
  set (p := {| shape := lead ++ [n]; data := _; Torch.requires_grad := _ |}).
  unfold bind at 1. rewrite (dot_run b b n (mkState g) Hb Hb).
  set (d := {| shape := []; data := _; Torch.requires_grad := _ |}).
  unfold bind at 1.
  rewrite (pointwise_run sdiv p d (lead ++ [n]) (mkState g)).
  2:{ apply broadcast_shapes_scalar. }
  set (q := {| shape := lead ++ [n]; data := _; Torch.requires_grad := _ |}).
  rewrite (pointwise_run ssub e q (lead ++ [n]) (mkState g)).
  2:{ simpl shape. rewrite He. apply broadcast_shapes_same. }
  assert (HN : numel (lead ++ [n]) = numel lead * n) by apply numel_snoc.
  assert (HR : numel (rev (lead ++ [n])) = numel lead * n)
    by now rewrite numel_rev.
  do 2 f_equal. f_equal.
  - rewrite HN. apply map_ext_in. intros k Hk. apply in_seq in Hk.
    assert (Hlt : k < numel lead * n) by lia. clear Hk.
    unfold hard_entry.
    rewrite He. simpl (shape q).
    rewrite source_index_same by now rewrite HR.
    f_equal.
    unfold item at 1. simpl (data q). rewrite HN, nth_map_seq by exact Hlt.
    simpl (shape p). simpl (shape d). simpl (rev []).
    rewrite source_index_same by now rewrite HR.
    f_equal.
    unfold item at 1. simpl (data p). rewrite HN, nth_map_seq by exact Hlt.
    now apply (projection_entries e b col m lead n).
  - unfold tracked. simpl. apply tracked_chain.
Qed.

Lemma Linear_forward_run (self : Debiaser) (e b : tensor A) (lead : list nat)
      (n : nat) (st : state) :
  shape e = lead ++ [n] ->
  shape b = [n] ->
  LinearDebiaser.forward self e b st =
  (Ok {| shape := lead ++ [n];
         data := map (linear_entry e b n) (seq 0 (numel lead * n));
         Torch.requires_grad :=
           requires_grad self
           && (Torch.requires_grad e || Torch.requires_grad b) |},
   st).
Proof.
  intros He Hb. destruct st as [g0].
  unfold LinearDebiaser.forward, set_grad_enabled.
  set (g := requires_grad self). simpl grad_enabled.
  unfold bind at 1. rewrite reshape_col_run.
  set (col := {| shape := [numel (shape b); 1]; data := data b;
                 Torch.requires_grad := _ |}).
  assert (Hcol : shape col = [n; 1]).
  { simpl. rewrite Hb. simpl. now rewrite Nat.mul_1_r. }
  unfold bind at 1. rewrite (matmul_run e col lead n 1 (mkState g) He Hcol).
  set (m := {| shape := lead ++ [1]; data := _; Torch.requires_grad := _ |}).
  unfold mul, sub.
  unfold bind at 1.
  rewrite (pointwise_run smul m b (lead ++ [n]) (mkState g)).
  2:{ simpl shape. rewrite Hb. apply broadcast_shapes_col. }
  set (p := {| shape := lead ++ [n]; data := _; Torch.requires_grad := _ |}).
  rewrite (pointwise_run ssub e p (lead ++ [n]) (mkState g)).
  2:{ simpl shape. rewrite He. apply broadcast_shapes_same. }
  assert (HN : numel (lead ++ [n]) = numel lead * n) by apply numel_snoc.
  assert (HR : numel (rev (lead ++ [n])) = numel lead * n)
    by now rewrite numel_rev.
  do 2 f_equal. f_equal.
  - rewrite HN. apply map_ext_in. intros k Hk. apply in_seq in Hk.
    assert (Hlt : k < numel lead * n) by lia. clear Hk.
    unfold linear_entry.
    rewrite He. simpl (shape p).
    rewrite source_index_same by now rewrite HR.
    f_equal.
    unfold item at 1. simpl (data p). rewrite HN, nth_map_seq by exact Hlt.
    now apply (projection_entries e b col m lead n).
  - unfold tracked. simpl. apply tracked_chain_linear.
Qed.

(** When the trailing size of [embeddings] is not the length of
    [bias_direction] (or there is no trailing size), [matmul] raises, and so
    do both debiasers; the grad mode is put back all the same. *)
Lemma matmul_raises (x w : tensor A) (n p : nat) (st : state) :
  shape w = [n; p] ->
  trailing_dim x <> Some n ->
  matmul x w st = (Raise ShapeMismatch, st).
Proof.
  intros Hw Hx. unfold matmul, bind, is_grad_enabled. rewrite Hw.
  unfold trailing_dim in Hx.
  destruct (split_last (shape x)) as [[lead d]|]; [|reflexivity].
  destruct (Nat.eqb_spec d n) as [->|_]; [|reflexivity].
  now elim Hx.
Qed.

Lemma Hard_forward_raises (self : Debiaser) (e b : tensor A) (n : nat)
      (st : state) :
  shape b = [n] ->
  trailing_dim e <> Some n ->
  HardDebiaser.forward self e b st = (Raise ShapeMismatch, st).
Proof.
  intros Hb He. destruct st as [g0].
  unfold HardDebiaser.forward, set_grad_enabled.
  unfold bind at 1. rewrite reshape_col_run.
  unfold bind at 1. rewrite (matmul_raises _ _ n 1); [reflexivity| |exact He].
  simpl. rewrite Hb. simpl. now rewrite Nat.mul_1_r.
Qed.

Lemma Linear_forward_raises (self : Debiaser) (e b : tensor A) (n : nat)
      (st : state) :
  shape b = [n] ->
  trailing_dim e <> Some n ->
  LinearDebiaser.forward self e b st = (Raise ShapeMismatch, st).
Proof.
  intros Hb He. destruct st as [g0].
  unfold LinearDebiaser.forward, set_grad_enabled.
  unfold bind at 1. rewrite reshape_col_run.
  unfold bind at 1. rewrite (matmul_raises _ _ n 1); [reflexivity| |exact He].
  simpl. rewrite Hb. simpl. now rewrite Nat.mul_1_r.
Qed.

Lemma trailing_dim_Some (e : tensor A) (n : nat) :
  trailing_dim e = Some n <-> exists lead, shape e = lead ++ [n].
Proof.
  unfold trailing_dim. split.
  - destruct (split_last (shape e)) as [[lead d]|] eqn:E; [|discriminate].
    simpl. intros [= ->]. exists lead. now apply split_last_Some.
  - intros [lead ->]. now rewrite split_last_snoc.
Qed.

End ForwardRuns.

(** ** Shapes and errors of [forward] *)

Section ShapeAndErrors.

Context {A : Type} `{Scalar A}.

(** C5. For both variants: when [bias_direction] is a vector of length [n]
    and the trailing size of [embeddings] is [n], [forward] returns (it does
    not raise) a tensor with exactly the sizes of [embeddings], whatever the
    leading sizes are, with one entry per index, and leaves the grad mode as
    it found it. *)
Theorem forward_preserves_shape (self : Debiaser) (e b : tensor A) (n : nat)
        (st : state) :
  shape b = [n] ->
  trailing_dim e = Some n ->
  (exists out, HardDebiaser.forward self e b st = (Ok out, st)
               /\ shape out = shape e /\ well_formed out)
  /\ (exists out, LinearDebiaser.forward self e b st = (Ok out, st)
                  /\ shape out = shape e /\ well_formed out).
Proof.
  intros Hb He. apply trailing_dim_Some in He. destruct He as [lead He].
  split.
  - rewrite (Hard_forward_run self e b lead n st He Hb).
    eexists. split; [reflexivity|]. split; [now rewrite He|].
    unfold well_formed. simpl.
    now rewrite length_map, length_seq, numel_snoc.
  - rewrite (Linear_forward_run self e b lead n st He Hb).
    eexists. split; [reflexivity|]. split; [now rewrite He|].
    unfold well_formed. simpl.
    now rewrite length_map, length_seq, numel_snoc.
Qed.

Lemma trailing_dim_dec (e : tensor A) (n : nat) :
  {trailing_dim e = Some n} + {trailing_dim e <> Some n}.
Proof.
  destruct (trailing_dim e) as [d|].
  - destruct (Nat.eq_dec d n) as [->|Hd]; [now left|].
    right. intros [= E]. now apply Hd.
  - right. discriminate.
Qed.

End ShapeAndErrors.

(** ** Which errors can come out *)

Section DtypesAndErrors.

Context {A : Type} `{Scalar A}.














End DtypesAndErrors.

(** ** The grad flag and the numbers *)

Section GradFlag.

Context {A : Type} `{Scalar A}.

Lemma same_outcome_numeric (r r' : result (tensor A)) :
  same_outcome r r' <-> numeric r = numeric r'.
Proof.
  destruct r as [[s d g]|err], r' as [[s' d' g']|err']; simpl;
    unfold same_numeric; simpl; split;
    try congruence; try tauto; try discriminate.
  - intros [-> ->]. reflexivity.
  - intros [= -> ->]. now split.
Qed.

Lemma same_numeric_refl (x : tensor A) : same_numeric x x.
Proof. now split. Qed.

Ltac same_operands :=
  repeat match goal with
         | x : tensor _ |- _ => destruct x as [? ? ?]
         end;
  unfold same_numeric in *; simpl in *;
  repeat match goal with
         | E : _ = _ /\ _ = _ |- _ => destruct E as [? ?]
         end;
  subst.

Lemma reshape_col_numeric (t t' : tensor A) (st st' : state) :
  same_numeric t t' ->
  same_outcome (fst (reshape_col t st)) (fst (reshape_col t' st')).
Proof. intros E. same_operands. now split. Qed.

Lemma matmul_numeric (x x' w w' : tensor A) (st st' : state) :
  same_numeric x x' -> same_numeric w w' ->
  same_outcome (fst (matmul x w st)) (fst (matmul x' w' st')).
Proof.
  intros Ex Ew. same_operands.
  unfold matmul, bind, is_grad_enabled, item. simpl.
  match goal with
  | |- context [match ?s with [] => _ | _ :: _ => _ end] =>
      destruct s as [|k [|p [|? ?]]]; simpl; try reflexivity
  end.
  match goal with
  | |- context [split_last ?s] =>
      destruct (split_last s) as [[lead d]|]; simpl; try reflexivity
  end.
  destruct (d =? k); simpl; [now split|reflexivity].
Qed.

Lemma dot_numeric (x x' y y' : tensor A) (st st' : state) :
  same_numeric x x' -> same_numeric y y' ->
  same_outcome (fst (dot x y st)) (fst (dot x' y' st')).
Proof.
  intros Ex Ey. same_operands.
  unfold dot, bind, is_grad_enabled, item. simpl.
  repeat match goal with
         | |- context [match ?s with [] => _ | _ :: _ => _ end] =>
             destruct s; simpl; try reflexivity
         end.
  match goal with
  | |- context [?a =? ?b] => destruct (a =? b); simpl
  end; [now split|reflexivity].
Qed.

Lemma pointwise_numeric (f : A -> A -> A) (x x' y y' : tensor A)
      (st st' : state) :
  same_numeric x x' -> same_numeric y y' ->
  same_outcome (fst (pointwise f x y st)) (fst (pointwise f x' y' st')).
Proof.
  intros Ex Ey. same_operands.
  unfold pointwise, bind, is_grad_enabled, item. simpl.
  match goal with
  | |- context [broadcast_shapes ?a ?b] =>
      destruct (broadcast_shapes a b); simpl
  end; [now split|reflexivity].
Qed.

Lemma bind_numeric (c c' : M (tensor A)) (k k' : tensor A -> M (tensor A))
      (st st' : state) :
  same_outcome (fst (c st)) (fst (c' st')) ->
  (forall x x' s s', same_numeric x x' ->
                     same_outcome (fst (k x s)) (fst (k' x' s'))) ->
  same_outcome (fst (bind c k st)) (fst (bind c' k' st')).
Proof.
  intros Hc Hk. unfold bind.
  destruct (c st) as [[x|err] s], (c' st') as [[x'|err'] s']; simpl in *;
    try contradiction; [now apply Hk|exact Hc].
Qed.

Lemma set_grad_enabled_numeric (mode mode' : bool) (body body' : M (tensor A))
      (st st' : state) :
  same_outcome (fst (body (mkState mode))) (fst (body' (mkState mode'))) ->
  same_outcome (fst (set_grad_enabled mode body st))
               (fst (set_grad_enabled mode' body' st')).
Proof.
  unfold set_grad_enabled.
  destruct (body (mkState mode)) as [r s].
  now destruct (body' (mkState mode')) as [r' s'].
Qed.

Lemma set_grad_enabled_restores {X : Type} (mode : bool) (body : M X)
      (st : state) :
  snd (set_grad_enabled mode body st) = st.
Proof.
  unfold set_grad_enabled. destruct (body (mkState mode)) as [r s].
  now destruct st.
Qed.

(** C8. For both variants, for all embeddings and bias directions (of any
    sizes) and whatever the grad mode of the caller: two debiasers that
    differ in their [requires_grad] flag return tensors with the same sizes
    and the same entries, or raise the same error. *)
Theorem requires_grad_does_not_change_numbers
        (self1 self2 : Debiaser) (e b : tensor A) (st1 st2 : state) :
  numeric (fst (HardDebiaser.forward self1 e b st1))
  = numeric (fst (HardDebiaser.forward self2 e b st2))
  /\ numeric (fst (LinearDebiaser.forward self1 e b st1))
     = numeric (fst (LinearDebiaser.forward self2 e b st2)).
Proof.
  split; apply same_outcome_numeric.
  - unfold HardDebiaser.forward. apply set_grad_enabled_numeric.
    apply bind_numeric.
    { apply reshape_col_numeric, same_numeric_refl. }
    intros col col' s s' Ecol. apply bind_numeric.
    { apply matmul_numeric; [apply same_numeric_refl|exact Ecol]. }
    clear s s'. intros m m' s s' Em. apply bind_numeric.
    { apply pointwise_numeric; [exact Em|apply same_numeric_refl]. }
    clear s s'. intros p p' s s' Ep. apply bind_numeric.
    { apply dot_numeric; apply same_numeric_refl. }
    clear s s'. intros d d' s s' Ed. apply bind_numeric.
    { apply pointwise_numeric; assumption. }
    clear s s'. intros q q' s s' Eq.
    apply pointwise_numeric; [apply same_numeric_refl|exact Eq].
  - unfold LinearDebiaser.forward. apply set_grad_enabled_numeric.
    apply bind_numeric.
    { apply reshape_col_numeric, same_numeric_refl. }
    intros col col' s s' Ecol. apply bind_numeric.
    { apply matmul_numeric; [apply same_numeric_refl|exact Ecol]. }
    clear s s'. intros m m' s s' Em. apply bind_numeric.
    { apply pointwise_numeric; [exact Em|apply same_numeric_refl]. }
    clear s s'. intros p p' s s' Ep.
    apply pointwise_numeric; [apply same_numeric_refl|exact Ep].
Qed.

End GradFlag.

(** ** Vectors and inner products, by index *)

Section InnerFacts.

Context {A : Type} `{Scalar A}.

Lemma fold_pairs_sum (l : list (A * A)) :
  fold_left (fun acc xy => sadd acc (smul (fst xy) (snd xy))) l szero
  = sum_upto (length l)
             (fun t => smul (fst (nth t l (szero, szero)))
                            (snd (nth t l (szero, szero)))).
Proof.
  induction l as [|x l IH] using rev_ind; [reflexivity|].
  rewrite fold_left_app, length_app, Nat.add_comm. simpl.
  rewrite IH. f_equal.
  - apply sum_upto_ext. intros t Ht. now rewrite app_nth1.
  - now rewrite nth_middle.
Qed.

Lemma inner_sum (u v : list A) (n : nat) :
  length u = n -> length v = n ->
  inner u v = sum_upto n (fun t => smul (nth t u szero) (nth t v szero)).
Proof.
  intros Hu Hv. unfold inner. rewrite fold_pairs_sum.
  rewrite length_combine, Hu, Hv, Nat.min_id.
  apply sum_upto_ext. intros t _.
  rewrite combine_nth by congruence. reflexivity.
Qed.

Lemma length_vector_at (x : tensor A) (n i : nat) :
  (i + 1) * n <= length (data x) -> length (vector_at x n i) = n.
Proof.
  intros Hl. unfold vector_at. rewrite length_firstn, length_skipn. lia.
Qed.

Lemma nth_vector_at (x : tensor A) (n i t : nat) :
  t < n -> nth t (vector_at x n i) szero = item x (i * n + t).
Proof.
  intros Ht. unfold vector_at, item.
  rewrite nth_firstn, nth_skipn.
  destruct (Nat.ltb_spec t n); [reflexivity|lia].
Qed.

(** The inner product of the [i]-th vector of [x] with a vector [b] of the
    same length is the [i]-th entry of [matmul(x, b.reshape(-1, 1))]. *)
Lemma inner_vector_at (x b : tensor A) (n i : nat) :
  (i + 1) * n <= length (data x) ->
  length (data b) = n ->
  inner (vector_at x n i) (data b) = row_dot x b n i.
Proof.
  intros Hx Hb.
  rewrite (inner_sum _ _ n) by (try apply length_vector_at; assumption).
  apply sum_upto_ext. intros t Ht. now rewrite nth_vector_at.
Qed.

Lemma concat_chunks (n r : nat) :
  forall l : list A,
    length l = r * n ->
    concat (map (fun i => firstn n (skipn (i * n) l)) (seq 0 r)) = l.
Proof.
  induction r as [|r IH]; intros l Hl.
  - destruct l; [reflexivity|discriminate].
  - simpl seq. rewrite <- seq_shift, map_cons, map_map. simpl concat.
    rewrite (map_ext _ (fun i => firstn n (skipn (i * n) (skipn n l)))).
    + rewrite IH by (rewrite length_skipn; lia).
      apply firstn_skipn.
    + intros i. rewrite skipn_skipn. do 2 f_equal. lia.
Qed.

(** The vectors of a well-formed tensor are all of its entries, in order. *)
Lemma concat_vectors (x : tensor A) (lead : list nat) (n : nat) :
  shape x = lead ++ [n] -> well_formed x -> concat (vectors x) = data x.
Proof.
  intros Hs Hwf. unfold vectors, vector_at. rewrite Hs, split_last_snoc.
  apply concat_chunks. unfold well_formed in Hwf.
  now rewrite Hwf, Hs, numel_snoc.
Qed.

Lemma inner_self (b : tensor A) (n : nat) :
  length (data b) = n -> inner (data b) (data b) = sq_norm b n.
Proof. intros Hb. now apply inner_sum. Qed.

Lemma vector_length (b : tensor A) (n : nat) :
  shape b = [n] -> well_formed b -> length (data b) = n.
Proof.
  unfold well_formed. intros -> ->. simpl. lia.
Qed.

End InnerFacts.

(** ** Exact arithmetic *)

Ltac qc_ops := cbn [sadd ssub smul sdiv szero Qc_Scalar] in *.

Section Exact.

Local Open Scope Qc_scope.

Lemma sum_upto_sub_scale (n : nat) (f g : nat -> Qc) (c : Qc) :
  sum_upto n (fun t => f t - c * g t) = sum_upto n f - c * sum_upto n g.
Proof.
  induction n as [|n IH]; simpl; qc_ops; [ring|].
  rewrite IH. ring.
Qed.

Lemma Qc_square_nonneg (x : Qc) : 0 <= x * x.
Proof.
  destruct (Qclt_le_dec x 0) as [Hneg|Hpos].
  - replace (x * x) with ((- x) * (- x)) by ring.
    assert (Hx : 0 <= - x).
    { apply Qclt_le_weak in Hneg. apply Qcopp_le_compat in Hneg.
      now replace (- 0) with 0 in Hneg by ring. }
    replace 0 with (0 * - x) by ring.
    now apply Qcmult_le_compat_r.
  - replace 0 with (0 * x) by ring.
    now apply Qcmult_le_compat_r.
Qed.

Lemma sum_squares_nonneg (n : nat) (f : nat -> Qc) :
  0 <= sum_upto n (fun t => f t * f t).
Proof.
  induction n as [|n IH]; simpl; qc_ops; [apply Qcle_refl|].
  replace 0 with (0 + 0) by ring.
  apply Qcplus_le_compat; [exact IH|apply Qc_square_nonneg].
Qed.

(** A sum of squares of rationals is zero only if every term is. *)
Lemma sum_squares_zero (n : nat) (f : nat -> Qc) :
  sum_upto n (fun t => f t * f t) = 0 ->
  forall t, (t < n)%nat -> f t = 0.
Proof.
  induction n as [|n IH]; simpl; qc_ops; intros E t Ht; [lia|].
  pose proof (sum_squares_nonneg n f) as Hs.
  pose proof (Qc_square_nonneg (f n)) as Hq.
  assert (Hs0 : sum_upto n (fun t => f t * f t) = 0).
  { apply Qcle_antisym; [|exact Hs].
    rewrite <- E.
    replace (sum_upto n (fun t => f t * f t))
      with (sum_upto n (fun t => f t * f t) + 0) at 1 by ring.
    apply Qcplus_le_compat; [apply Qcle_refl|exact Hq]. }
  destruct (Nat.eq_dec t n) as [->|Hne].
  - rewrite Hs0 in E.
    assert (E' : f n * f n = 0) by (rewrite <- E; ring).
    now destruct (Qcmult_integral _ _ E').
  - apply IH; [exact Hs0|lia].
Qed.


Lemma row_index (i n t : nat) :
  (t < n)%nat -> ((i * n + t) / n = i /\ (i * n + t) mod n = t)%nat.
Proof.
  intros Ht. split.
  - symmetry. apply (Nat.div_unique _ _ _ t); lia.
  - symmetry. apply (Nat.mod_unique _ _ i); lia.
Qed.

(** The component along [b] of every vector that [HardDebiaser] computes. *)
Lemma hard_row_dot (e b : tensor Qc) (n i : nat) :
  sq_norm b n <> 0 ->
  sum_upto n (fun t => hard_entry e b n (i * n + t) * item b t) = 0.
Proof.
  intros Hsq.
  rewrite (sum_upto_ext n _
             (fun t => item e (i * n + t) * item b t
                       - (row_dot e b n i / sq_norm b n)
                         * (item b t * item b t))).
  - rewrite sum_upto_sub_scale.
    change (sum_upto n (fun t => item b t * item b t)) with (sq_norm b n).
    change (sum_upto n (fun t => item e (i * n + t) * item b t))
      with (row_dot e b n i).
    now field.
  - intros t Ht. unfold hard_entry.
    destruct (row_index i n t Ht) as [-> ->]. qc_ops. now field.
Qed.

Lemma linear_row_dot_any (e b : tensor Qc) (n i : nat) :
  sum_upto n (fun t => linear_entry e b n (i * n + t) * item b t)
  = row_dot e b n i * (1 - sq_norm b n).
Proof.
  rewrite (sum_upto_ext n _
             (fun t => item e (i * n + t) * item b t
                       - row_dot e b n i * (item b t * item b t))).
  - rewrite sum_upto_sub_scale.
    change (sum_upto n (fun t => item b t * item b t)) with (sq_norm b n).
    change (sum_upto n (fun t => item e (i * n + t) * item b t))
      with (row_dot e b n i).
    ring.
  - intros t Ht. unfold linear_entry.
    destruct (row_index i n t Ht) as [-> ->]. qc_ops. ring.
Qed.


End Exact.

(** ** The debiasers in exact arithmetic *)

Section ExactClaims.

Local Open Scope Qc_scope.

Lemma vectors_run (out : tensor Qc) (lead : list nat) (n : nat)
      (P : list Qc -> Prop) :
  shape out = lead ++ [n] ->
  (forall i, (i < numel lead)%nat -> P (vector_at out n i)) ->
  Forall P (vectors out).
Proof.
  intros Hs HP. unfold vectors. rewrite Hs, split_last_snoc.
  apply Forall_forall. intros v Hv. apply in_map_iff in Hv.
  destruct Hv as [i [<- Hi]]. apply in_seq in Hi. apply HP. lia.
Qed.

Lemma item_entries (f : nat -> Qc) (s : list nat) (g : bool) (N k : nat) :
  (k < N)%nat ->
  item {| shape := s; data := map f (seq 0 N); Torch.requires_grad := g |} k
  = f k.
Proof. intros Hk. unfold item. simpl. now apply nth_map_seq. Qed.

Lemma row_entry_bound (lead : list nat) (n i t : nat) :
  (i < numel lead)%nat -> (t < n)%nat -> (i * n + t < numel lead * n)%nat.
Proof. intros Hi Ht. nia. Qed.

(** Rows of a tensor given by its entries. *)
Lemma row_dot_entries (f : nat -> Qc) (b : tensor Qc) (lead : list nat)
      (g : bool) (n i : nat) :
  (i < numel lead)%nat ->
  row_dot {| shape := lead ++ [n];
             data := map f (seq 0 (numel lead * n));
             Torch.requires_grad := g |} b n i
  = sum_upto n (fun t => f (i * n + t)%nat * item b t).
Proof.
  intros Hi. unfold row_dot. apply sum_upto_ext. intros t Ht. qc_ops.
  now rewrite item_entries by now apply row_entry_bound.
Qed.

Lemma inner_entries (f : nat -> Qc) (b : tensor Qc) (lead : list nat)
      (g : bool) (n i : nat) :
  length (data b) = n ->
  (i < numel lead)%nat ->
  inner (vector_at {| shape := lead ++ [n];
                      data := map f (seq 0 (numel lead * n));
                      Torch.requires_grad := g |} n i) (data b)
  = sum_upto n (fun t => f (i * n + t)%nat * item b t).
Proof.
  intros Hb Hi. rewrite inner_vector_at.
  - now apply row_dot_entries.
  - simpl. rewrite length_map, length_seq. nia.
  - exact Hb.
Qed.



(** C3. For every vector [b] with [b . b = 1] and every [e], the two
    variants return the same thing: the same tensor when the sizes match,
    the same error when they do not.  For any vector [b] of matching length
    the two results have the same sizes and differ only in that
    [HardDebiaser] divides what [LinearDebiaser] subtracts by [b . b]. *)
Theorem hard_equals_linear_on_unit (self : Debiaser) (e b : tensor Qc)
        (n : nat) (st : state) :
  shape b = [n] ->
  well_formed b ->
  (inner (data b) (data b) = 1 ->
   HardDebiaser.forward self e b st = LinearDebiaser.forward self e b st)
  /\ (inner (data b) (data b) <> 0 ->
      trailing_dim e = Some n ->
      exists hard linear,
        HardDebiaser.forward self e b st = (Ok hard, st)
        /\ LinearDebiaser.forward self e b st = (Ok linear, st)
        /\ shape hard = shape linear
        /\ forall k, (k < numel (shape e))%nat ->
             item hard k
             = item e k - (item e k - item linear k) / inner (data b) (data b)).
Proof.
  intros Hb Hwf.
  pose proof (vector_length b n Hb Hwf) as Hl.
  rewrite (inner_self b n Hl).
  split.
  - intros Hunit.
    destruct (trailing_dim_dec e n) as [Heq|Hne].
    + apply trailing_dim_Some in Heq. destruct Heq as [lead He].
      rewrite (Hard_forward_run self e b lead n st He Hb).
      rewrite (Linear_forward_run self e b lead n st He Hb).
      do 2 f_equal. f_equal.
      apply map_ext. intros k. unfold hard_entry, linear_entry.
      rewrite Hunit. qc_ops. field. discriminate.
    + rewrite (Hard_forward_raises self e b n st Hb Hne).
      now rewrite (Linear_forward_raises self e b n st Hb Hne).
  - intros Hsq He. apply trailing_dim_Some in He. destruct He as [lead He].
    rewrite (Hard_forward_run self e b lead n st He Hb).
    rewrite (Linear_forward_run self e b lead n st He Hb).
    eexists. eexists. split; [reflexivity|]. split; [reflexivity|].
    split; [reflexivity|].
    intros k Hk. rewrite He, numel_snoc in Hk.
    rewrite !item_entries by exact Hk.
    unfold hard_entry, linear_entry. qc_ops. now field.
Qed.

Lemma tracked_again (g re rb : bool) :
  g && (g && (re || rb) || rb) = g && (re || rb).
Proof. now destruct g, re, rb. Qed.

(** A second pass of [HardDebiaser] finds nothing left to remove. *)
Lemma hard_twice (self : Debiaser) (e b : tensor Qc) (lead : list nat)
      (n : nat) (st : state) :
  shape e = lead ++ [n] ->
  shape b = [n] ->
  sq_norm b n <> 0 ->
  idempotent_at HardDebiaser.forward self e b st.
Proof.
  intros He Hb Hsq. unfold idempotent_at.
  rewrite (Hard_forward_run self e b lead n st He Hb).
  eexists. split; [reflexivity|].
  match goal with
  | |- HardDebiaser.forward _ ?o _ _ = _ =>
      rewrite (Hard_forward_run self o b lead n st (eq_refl (lead ++ [n])) Hb)
  end.
  do 2 f_equal. f_equal.
  - apply map_ext_in. intros k Hk. apply in_seq in Hk.
    assert (Hlt : (k < numel lead * n)%nat) by lia. clear Hk.
    assert (Hn : n <> 0%nat) by (intros ->; lia).
    assert (Hq : (k / n < numel lead)%nat).
    { apply Nat.Div0.div_lt_upper_bound. lia. }
    unfold hard_entry at 1.
    rewrite item_entries by exact Hlt.
    rewrite row_dot_entries by exact Hq.
    rewrite hard_row_dot by exact Hsq.
    qc_ops. now field.
  - simpl. apply tracked_again.
Qed.

Lemma linear_twice (self : Debiaser) (e b : tensor Qc) (lead : list nat)
      (n : nat) (st : state) :
  shape e = lead ++ [n] ->
  shape b = [n] ->
  sq_norm b n = 1 \/ sq_norm b n = 0 ->
  idempotent_at LinearDebiaser.forward self e b st.
Proof.
  intros He Hb Hsq. unfold idempotent_at.
  rewrite (Linear_forward_run self e b lead n st He Hb).
  eexists. split; [reflexivity|].
  match goal with
  | |- LinearDebiaser.forward _ ?o _ _ = _ =>
      rewrite (Linear_forward_run self o b lead n st (eq_refl (lead ++ [n]))
                                  Hb)
  end.
  do 2 f_equal. f_equal.
  - apply map_ext_in. intros k Hk. apply in_seq in Hk.
    assert (Hlt : (k < numel lead * n)%nat) by lia. clear Hk.
    assert (Hn : n <> 0%nat) by (intros ->; lia).
    assert (Hq : (k / n < numel lead)%nat).
    { apply Nat.Div0.div_lt_upper_bound. lia. }
    unfold linear_entry at 1.
    rewrite item_entries by exact Hlt.
    rewrite row_dot_entries by exact Hq.
    rewrite linear_row_dot_any.
    destruct Hsq as [Hsq|Hsq].
    + rewrite Hsq. qc_ops. ring.
    + assert (Hz : item b (k mod n) = 0).
      { apply (sum_squares_zero n (item b) Hsq).
        now apply Nat.mod_upper_bound. }
      rewrite Hz. qc_ops. ring.
  - simpl. apply tracked_again.
Qed.

(** With a direction whose squared norm is 0 every entry of the direction
    is 0, the subtracted term has a zero numerator and nothing changes. *)
Lemma hard_twice_zero (self : Debiaser) (e b : tensor Qc) (lead : list nat)
      (n : nat) (st : state) :
  shape e = lead ++ [n] ->
  shape b = [n] ->
  sq_norm b n = 0 ->
  idempotent_at HardDebiaser.forward self e b st.
Proof.
  intros He Hb Hsq. unfold idempotent_at.
  rewrite (Hard_forward_run self e b lead n st He Hb).
  eexists. split; [reflexivity|].
  match goal with
  | |- HardDebiaser.forward _ ?o _ _ = _ =>
      rewrite (Hard_forward_run self o b lead n st (eq_refl (lead ++ [n])) Hb)
  end.
  do 2 f_equal. f_equal.
  - apply map_ext_in. intros k Hk. apply in_seq in Hk.
    assert (Hlt : (k < numel lead * n)%nat) by lia. clear Hk.
    assert (Hn : n <> 0%nat) by (intros ->; lia).
    assert (Hz : item b (k mod n) = 0).
    { apply (sum_squares_zero n (item b) Hsq).
      now apply Nat.mod_upper_bound. }
    unfold hard_entry at 1.
    rewrite item_entries by exact Hlt.
    rewrite Hz. qc_ops. unfold Qcdiv. ring.
  - simpl. apply tracked_again.
Qed.

(** C10. [HardDebiaser.forward] is idempotent for every vector [b] with
    [b . b <> 0], unit or not: the second call returns the tensor the first
    call returned. *)
Theorem hard_idempotent_any_norm (self : Debiaser) (e b : tensor Qc)
        (n : nat) (st : state) :
  shape b = [n] ->
  well_formed b ->
  inner (data b) (data b) <> 0 ->
  trailing_dim e = Some n ->
  idempotent_at HardDebiaser.forward self e b st.
Proof.
  intros Hb Hwf Hsq He.
  apply trailing_dim_Some in He. destruct He as [lead He].
  rewrite (inner_self b n (vector_length b n Hb Hwf)) in Hsq.
  now apply (hard_twice self e b lead n st).
Qed.

End ExactClaims.

(** ** A zero direction, with the special values *)

Section ZeroDirection.

Lemma mul_zero_r (x : ieee) : zero_or_nan (ieee_mul x (Fin 0%Qc)).
Proof.
  destruct x as [p| | |]; simpl.
  - left. f_equal. ring.
  - right. reflexivity.
  - right. reflexivity.
  - right. reflexivity.
Qed.

Lemma mul_finite_zero_r (x : ieee) :
  is_finite x -> ieee_mul x (Fin 0%Qc) = Fin 0%Qc.
Proof.
  destruct x as [p| | |]; simpl; try contradiction.
  intros _. f_equal. ring.
Qed.

Lemma sum_zeros (n : nat) (f : nat -> ieee) :
  (forall t, t < n -> f t = Fin 0%Qc) -> sum_upto n f = Fin 0%Qc.
Proof.
  induction n as [|n IH]; simpl; intros Hf; [reflexivity|].
  rewrite IH, Hf by (intros; try apply Hf; lia).
  reflexivity.
Qed.

Lemma div_by_zero (x : ieee) :
  zero_or_nan x -> ieee_div x (Fin 0%Qc) = NaN.
Proof. intros [-> | ->]; reflexivity. Qed.

Lemma sub_nan (x : ieee) : ieee_sub x NaN = NaN.
Proof. now destruct x. Qed.

Lemma sub_finite_zero (x : ieee) :
  is_finite x -> ieee_sub x (Fin 0%Qc) = x.
Proof.
  destruct x as [p| | |]; simpl; try contradiction.
  intros _. unfold ieee_sub. simpl. f_equal. ring.
Qed.

Lemma item_zeros (b : tensor ieee) (n t : nat) :
  data b = repeat (Fin 0%Qc) n -> item b t = Fin 0%Qc.
Proof. intros Hz. unfold item. rewrite Hz. apply nth_repeat. Qed.

Lemma item_finite (e : tensor ieee) (k : nat) :
  Forall is_finite (data e) -> is_finite (item e k).
Proof.
  intros Hf. unfold item.
  destruct (Nat.lt_ge_cases k (length (data e))) as [Hk|Hk].
  - apply (proj1 (Forall_forall _ _) Hf). now apply nth_In.
  - now rewrite nth_overflow.
Qed.

Lemma hard_entry_zero_direction (e b : tensor ieee) (n k : nat) :
  data b = repeat (Fin 0%Qc) n -> hard_entry e b n k = NaN.
Proof.
  intros Hz. unfold hard_entry, sq_norm.
  cbn [ssub sdiv smul ieee_Scalar].
  rewrite (item_zeros b n _ Hz).
  rewrite (sum_zeros n (fun t => ieee_mul (item b t) (item b t))).
  - rewrite div_by_zero by apply mul_zero_r. apply sub_nan.
  - intros t _. rewrite (item_zeros b n t Hz). reflexivity.
Qed.

Lemma linear_entry_zero_direction (e b : tensor ieee) (n k : nat) :
  data b = repeat (Fin 0%Qc) n ->
  Forall is_finite (data e) ->
  linear_entry e b n k = item e k.
Proof.
  intros Hz Hf. unfold linear_entry, row_dot.
  cbn [ssub sdiv smul ieee_Scalar].
  rewrite (item_zeros b n _ Hz).
  rewrite (sum_zeros n).
  - replace (ieee_mul (Fin 0%Qc) (Fin 0%Qc)) with (Fin 0%Qc)
      by reflexivity.
    apply sub_finite_zero, item_finite, Hf.
  - intros t _. rewrite (item_zeros b n t Hz).
    apply mul_finite_zero_r, item_finite, Hf.
Qed.

Lemma map_item_seq {A : Type} `{Scalar A} (e : tensor A) :
  map (item e) (seq 0 (length (data e))) = data e.
Proof.
  unfold item. generalize (data e). intros l.
  induction l as [|x l IH]; [reflexivity|].
  simpl. f_equal. rewrite <- seq_shift, map_map. exact IH.
Qed.

(** C7, as the code has it. For both variants a zero [bias_direction] whose
    length is the trailing size of [embeddings] raises nothing.
    [HardDebiaser] divides by [b . b = 0] and every entry of its result is
    not-a-number; [LinearDebiaser] does not divide and returns finite
    embeddings unchanged. *)
Theorem zero_direction_does_not_raise (self : Debiaser) (e b : tensor ieee)
        (n : nat) (st : state) :
  shape b = [n] ->
  data b = repeat (Fin 0%Qc) n ->
  trailing_dim e = Some n ->
  (exists out,
      HardDebiaser.forward self e b st = (Ok out, st)
      /\ shape out = shape e
      /\ length (data out) = numel (shape e)
      /\ Forall (eq NaN) (data out))
  /\ (exists out,
         LinearDebiaser.forward self e b st = (Ok out, st)
         /\ shape out = shape e
         /\ (well_formed e -> Forall is_finite (data e) ->
             data out = data e)).
Proof.
  intros Hb Hz He.
  apply trailing_dim_Some in He. destruct He as [lead He].
  split.
  - rewrite (Hard_forward_run self e b lead n st He Hb).
    eexists. split; [reflexivity|]. simpl.
    split; [now rewrite He|].
    split; [now rewrite length_map, length_seq, He, numel_snoc|].
    apply Forall_forall. intros x Hx. apply in_map_iff in Hx.
    destruct Hx as [k [<- _]]. symmetry.
    now apply hard_entry_zero_direction.
  - rewrite (Linear_forward_run self e b lead n st He Hb).
    eexists. split; [reflexivity|]. simpl.
    split; [now rewrite He|].
    intros Hwf Hf. unfold well_formed in Hwf.
    rewrite He, numel_snoc in Hwf. rewrite <- Hwf.
    rewrite <- (map_item_seq e) at 2.
    apply map_ext. intros k. now apply linear_entry_zero_direction.
Qed.

(** With the special values, both passes over a zero direction give the
    same tensor, every entry of which is not-a-number. *)
Lemma hard_twice_zero_direction (self : Debiaser) (x z : tensor ieee)
      (lead : list nat) (n : nat) (st : state) :
  shape x = lead ++ [n] ->
  shape z = [n] ->
  data z = repeat (Fin 0%Qc) n ->
  idempotent_at HardDebiaser.forward self x z st.
Proof.
  intros Hx Hz Hzero. unfold idempotent_at.
  rewrite (Hard_forward_run self x z lead n st Hx Hz).
  eexists. split; [reflexivity|].
  match goal with
  | |- HardDebiaser.forward _ ?o _ _ = _ =>
      rewrite (Hard_forward_run self o z lead n st (eq_refl (lead ++ [n])) Hz)
  end.
  do 2 f_equal. f_equal.
  - apply map_ext. intros k.
    now rewrite !hard_entry_zero_direction.
  - simpl. now destruct (requires_grad self), (Torch.requires_grad x),
             (Torch.requires_grad z).
Qed.

(** C4, as the code has it. Applying a debiaser twice with the same [b]
    gives what applying it once gives: for [HardDebiaser] for every [b]
    (on a zero direction, with the special values, both passes give the same
    tensor of not-a-number entries), for [LinearDebiaser] whenever
    [b . b = 1], and for the zero direction, on which it leaves every
    embedding unchanged. *)
Theorem forward_idempotent (self : Debiaser) (e b : tensor Qc)
        (x z : tensor ieee) (n : nat) (st : state) :
  shape b = [n] ->
  well_formed b ->
  trailing_dim e = Some n ->
  shape z = [n] ->
  data z = repeat (Fin 0%Qc) n ->
  trailing_dim x = Some n ->
  idempotent_at HardDebiaser.forward self e b st
  /\ idempotent_at HardDebiaser.forward self x z st
  /\ (inner (data b) (data b) = 1%Qc \/ inner (data b) (data b) = 0%Qc ->
      idempotent_at LinearDebiaser.forward self e b st).
Proof.
  intros Hb Hwf He Hz Hzero Hx.
  apply trailing_dim_Some in He. destruct He as [lead He].
  apply trailing_dim_Some in Hx. destruct Hx as [lead' Hx].
  rewrite (inner_self b n (vector_length b n Hb Hwf)).
  split; [|split].
  - destruct (Qc_eq_dec (sq_norm b n) 0%Qc) as [Hsq|Hsq].
    + now apply (hard_twice_zero self e b lead n st).
    + now apply (hard_twice self e b lead n st).
  - now apply (hard_twice_zero_direction self x z lead' n st).
  - intros Hsq. now apply (linear_twice self e b lead n st).
Qed.

End ZeroDirection.

(** ** Concrete runs *)

Section Scenarios.

Local Open Scope Qc_scope.

Ltac qc_entries :=
  repeat (apply f_equal2; [apply Qc_is_canon; vm_compute; reflexivity|]);
  reflexivity.

Lemma result_ext (s : list nat) (d d' : list Qc) (g g' : bool) (st : state) :
  d = d' -> g = g' ->
  (Ok {| shape := s; data := d; Torch.requires_grad := g |}, st)
  = (Ok {| shape := s; data := d'; Torch.requires_grad := g' |}, st).
Proof. now intros -> ->. Qed.

Lemma linear_first_pass (self : Debiaser) (st : state) :
  LinearDebiaser.forward self eye2 ones2 st = (Ok antidiag2, st).
Proof.
  rewrite (Linear_forward_run self eye2 ones2 [2] 2 st eq_refl eq_refl).
  apply result_ext.
  - simpl map. qc_entries.
  - now destruct (requires_grad self).
Qed.

(** C9. On [e = [[1, 0], [0, 1]]] and the non-unit [b = [1, 1]],
    [HardDebiaser.forward] returns [[[1/2, -1/2], [-1/2, 1/2]]] and
    [LinearDebiaser.forward] returns [[[0, -1], [-1, 0]]], for either value
    of the flag and either grad mode of the caller. *)
Theorem scenario_non_unit_direction (self : Debiaser) (st : state) :
  HardDebiaser.forward self eye2 ones2 st
  = (Ok (tensor_of [2; 2] [qc 1 2; qc (-1) 2; qc (-1) 2; qc 1 2]), st)
  /\ LinearDebiaser.forward self eye2 ones2 st
     = (Ok (tensor_of [2; 2] [qc 0 1; qc (-1) 1; qc (-1) 1; qc 0 1]), st).
Proof.
  split.
  - rewrite (Hard_forward_run self eye2 ones2 [2] 2 st eq_refl eq_refl).
    apply result_ext.
    + simpl map. qc_entries.
    + now destruct (requires_grad self).
  - rewrite (Linear_forward_run self eye2 ones2 [2] 2 st eq_refl eq_refl).
    apply result_ext.
    + simpl map. qc_entries.
    + now destruct (requires_grad self).
Qed.

(** The scenario with a unit direction: [e = [3, 4]], [b = [1, 0]]. *)
Example scenario_unit_direction (self : Debiaser) (st : state) :
  HardDebiaser.forward self vec34 axis2 st
  = (Ok (tensor_of [2] [qc 0 1; qc 4 1]), st)
  /\ LinearDebiaser.forward self vec34 axis2 st
     = (Ok (tensor_of [2] [qc 0 1; qc 4 1]), st).
Proof.
  split.
  - rewrite (Hard_forward_run self vec34 axis2 [] 2 st eq_refl eq_refl).
    apply result_ext.
    + simpl map. qc_entries.
    + now destruct (requires_grad self).
  - rewrite (Linear_forward_run self vec34 axis2 [] 2 st eq_refl eq_refl).
    apply result_ext.
    + simpl map. qc_entries.
    + now destruct (requires_grad self).
Qed.

(** The error scenario: trailing size 3 against a direction of length 2. *)
Example scenario_shape_mismatch (self : Debiaser) (st : state) :
  HardDebiaser.forward self row123 ones2 st = (Raise ShapeMismatch, st)
  /\ LinearDebiaser.forward self row123 ones2 st = (Raise ShapeMismatch, st).
Proof.
  split.
  - now apply (Hard_forward_raises self row123 ones2 2).
  - now apply (Linear_forward_raises self row123 ones2 2).
Qed.

(** The flag is not ignored: it decides whether the result is recorded for
    backpropagation. *)
Example flag_decides_tracking :
  (exists out,
      HardDebiaser.forward {| requires_grad := true |} tracked34 axis2 grad_on
      = (Ok out, grad_on) /\ Torch.requires_grad out = true)
  /\ (exists out,
         HardDebiaser.forward plain tracked34 axis2 grad_on
         = (Ok out, grad_on) /\ Torch.requires_grad out = false).
Proof.
  split.
  - rewrite (Hard_forward_run _ tracked34 axis2 [] 2 grad_on eq_refl eq_refl).
    eexists. split; reflexivity.
  - rewrite (Hard_forward_run _ tracked34 axis2 [] 2 grad_on eq_refl eq_refl).
    eexists. split; reflexivity.
Qed.

(** On the non-unit [b = [1, 1]] a second pass of [LinearDebiaser] does not
    return what the first returned: it gives the embeddings back. *)
Example linear_second_pass (self : Debiaser) (st : state) :
  LinearDebiaser.forward self antidiag2 ones2 st = (Ok eye2, st).
Proof.
  rewrite (Linear_forward_run self antidiag2 ones2 [2] 2 st eq_refl eq_refl).
  apply result_ext.
  - simpl map. qc_entries.
  - now destruct (requires_grad self).
Qed.

End Scenarios.

(** ** Instances and counterexamples *)

Section Instances.

Local Open Scope Qc_scope.

Ltac qc_differ E :=
  apply (f_equal this) in E; vm_compute in E; discriminate E.


Lemma ones2_norm : inner (data ones2) (data ones2) <> 0.
Proof. intros E. qc_differ E. Defined.

Lemma unit35_norm : inner (data unit35) (data unit35) = 1.
Proof. apply Qc_is_canon. vm_compute. reflexivity. Defined.

Lemma unit35_norm_nonzero : inner (data unit35) (data unit35) <> 0.
Proof. intros E. qc_differ E. Defined.



Lemma hard_equals_linear_on_unit_witness :
  shape unit35 = [2%nat] /\ well_formed unit35
  /\ inner (data unit35) (data unit35) = 1
  /\ inner (data unit35) (data unit35) <> 0
  /\ trailing_dim batch212 = Some 2%nat
  /\ HardDebiaser.forward plain batch212 unit35 grad_on
     = LinearDebiaser.forward plain batch212 unit35 grad_on
  /\ exists hard linear,
       HardDebiaser.forward plain batch212 unit35 grad_on = (Ok hard, grad_on)
       /\ LinearDebiaser.forward plain batch212 unit35 grad_on
          = (Ok linear, grad_on)
       /\ shape hard = shape linear
       /\ forall k, (k < numel (shape batch212))%nat ->
            item hard k
            = item batch212 k
              - (item batch212 k - item linear k)
                / inner (data unit35) (data unit35).
Proof.
  pose proof (hard_equals_linear_on_unit plain batch212 unit35 2 grad_on
                eq_refl eq_refl) as P.
  split; [reflexivity|]. split; [reflexivity|].
  split; [apply unit35_norm|]. split; [apply unit35_norm_nonzero|].
  split; [reflexivity|].
  split.
  - apply (proj1 P), unit35_norm.
  - apply (proj2 P); [apply unit35_norm_nonzero|reflexivity].
Defined.

Lemma forward_idempotent_witness :
  shape unit35 = [2%nat] /\ well_formed unit35
  /\ trailing_dim batch212 = Some 2%nat
  /\ shape zeros2 = [2%nat] /\ data zeros2 = repeat (Fin 0) 2
  /\ trailing_dim (float_of eye2) = Some 2%nat
  /\ idempotent_at HardDebiaser.forward plain batch212 unit35 grad_on
  /\ idempotent_at HardDebiaser.forward plain (float_of eye2) zeros2 grad_on
  /\ idempotent_at LinearDebiaser.forward plain batch212 unit35 grad_on.
Proof.
  pose proof (forward_idempotent plain batch212 unit35 (float_of eye2) zeros2
                2 grad_on
                eq_refl eq_refl eq_refl eq_refl eq_refl eq_refl) as P.
  split; [reflexivity|]. split; [reflexivity|]. split; [reflexivity|].
  split; [reflexivity|]. split; [reflexivity|]. split; [reflexivity|].
  split; [apply (proj1 P)|]. split; [apply (proj1 (proj2 P))|].
  apply (proj2 (proj2 P)). left. apply unit35_norm.
Defined.

Lemma hard_idempotent_any_norm_witness :
  shape ones2 = [2%nat] /\ well_formed ones2
  /\ inner (data ones2) (data ones2) <> 0
  /\ trailing_dim batch212 = Some 2%nat
  /\ idempotent_at HardDebiaser.forward plain batch212 ones2 grad_on.
Proof.
  split; [reflexivity|]. split; [reflexivity|].
  split; [apply ones2_norm|]. split; [reflexivity|].
  apply (hard_idempotent_any_norm plain batch212 ones2 2 grad_on);
    try reflexivity; apply ones2_norm.
Defined.

Lemma forward_preserves_shape_witness :
  shape ones2 = [2%nat] /\ trailing_dim batch212 = Some 2%nat
  /\ (exists out,
        HardDebiaser.forward plain batch212 ones2 grad_on = (Ok out, grad_on)
        /\ shape out = shape batch212 /\ well_formed out)
  /\ (exists out,
        LinearDebiaser.forward plain batch212 ones2 grad_on
        = (Ok out, grad_on)
        /\ shape out = shape batch212 /\ well_formed out).
Proof.
  split; [reflexivity|]. split; [reflexivity|].
  apply (forward_preserves_shape plain batch212 ones2 2 grad_on);
    reflexivity.
Defined.



Lemma zero_direction_does_not_raise_witness :
  shape zeros2 = [2%nat] /\ data zeros2 = repeat (Fin 0) 2
  /\ trailing_dim (float_of eye2) = Some 2%nat
  /\ (exists out,
        HardDebiaser.forward plain (float_of eye2) zeros2 grad_on
        = (Ok out, grad_on)
        /\ shape out = shape (float_of eye2)
        /\ length (data out) = numel (shape (float_of eye2))
        /\ Forall (eq NaN) (data out))
  /\ (exists out,
        LinearDebiaser.forward plain (float_of eye2) zeros2 grad_on
        = (Ok out, grad_on)
        /\ shape out = shape (float_of eye2)
        /\ (well_formed (float_of eye2) ->
            Forall is_finite (data (float_of eye2)) ->
            data out = data (float_of eye2))).
Proof.
  split; [reflexivity|]. split; [reflexivity|]. split; [reflexivity|].
  apply (zero_direction_does_not_raise plain (float_of eye2) zeros2 2
                                       grad_on);
    reflexivity.
Defined.

(** C4 fails for [LinearDebiaser] on the non-unit [b = [1, 1]] and
    [e = [[1, 0], [0, 1]]]: the first pass gives [[[0, -1], [-1, 0]]], the
    second gives [e] back. *)
Lemma linear_not_idempotent :
  ~ idempotent_at LinearDebiaser.forward plain eye2 ones2 grad_on.
Proof.
  intros [out [H1 H2]].
  rewrite linear_first_pass in H1. injection H1 as <-.
  rewrite linear_second_pass in H2.
  apply (f_equal (fun r => match fst r with
                           | Ok t => map this (data t)
                           | Raise _ => []
                           end)) in H2.
  vm_compute in H2. discriminate H2.
Qed.

(** C7 fails for [LinearDebiaser]: on the zero direction [[0, 0]] and
    [e = [[1, 0], [0, 1]]] it returns a tensor without any not-a-number. *)
Lemma linear_zero_direction_no_nan :
  ~ nan_in_result LinearDebiaser.forward plain (float_of eye2) zeros2 grad_on.
Proof.
  intros [out [H1 HE]].
  rewrite (Linear_forward_run plain (float_of eye2) zeros2 [2%nat] 2 grad_on
                              eq_refl eq_refl) in H1.
  injection H1 as <-.
  apply Exists_exists in HE. destruct HE as [x [Hin Hx]].
  simpl in Hin.
  repeat (destruct Hin as [<-|Hin];
          [vm_compute in Hx; discriminate Hx|]).
  contradiction.
Qed.

End Instances.

(** ** The grad mode around a call *)

Section GradMode.

Context {A : Type} `{Scalar A}.

(** X2. The result is recorded for backpropagation exactly when the flag of
    the debiaser is set and one of the two inputs requires a gradient; the
    grad mode of the caller plays no part. *)
Theorem forward_tracking (self : Debiaser) (e b : tensor A) (n : nat)
        (st : state) :
  shape b = [n] ->
  trailing_dim e = Some n ->
  (exists out,
      HardDebiaser.forward self e b st = (Ok out, st)
      /\ Torch.requires_grad out
         = requires_grad self
           && (Torch.requires_grad e || Torch.requires_grad b))
  /\ (exists out,
         LinearDebiaser.forward self e b st = (Ok out, st)
         /\ Torch.requires_grad out
            = requires_grad self
              && (Torch.requires_grad e || Torch.requires_grad b)).
Proof.
  intros Hb He. apply trailing_dim_Some in He. destruct He as [lead He].
  split.
  - rewrite (Hard_forward_run self e b lead n st He Hb).
    eexists. split; reflexivity.
  - rewrite (Linear_forward_run self e b lead n st He Hb).
    eexists. split; reflexivity.
Qed.

(** X17. A debiaser constructed without an argument never records its
    result for backpropagation, even when the inputs require gradients and
    the grad mode of the caller is on; one constructed with [True] records
    it as soon as one input requires a gradient, even when the grad mode of
    the caller is off. *)
Theorem default_debiaser_does_not_track (e b : tensor A) (n : nat)
        (st : state) :
  shape b = [n] ->
  trailing_dim e = Some n ->
  (exists hard linear,
      HardDebiaser.forward (__init__ None) e b st = (Ok hard, st)
      /\ LinearDebiaser.forward (__init__ None) e b st = (Ok linear, st)
      /\ Torch.requires_grad hard = false
      /\ Torch.requires_grad linear = false)
  /\ (exists hard linear,
         HardDebiaser.forward (__init__ (Some true)) e b st = (Ok hard, st)
         /\ LinearDebiaser.forward (__init__ (Some true)) e b st
            = (Ok linear, st)
         /\ Torch.requires_grad hard
            = (Torch.requires_grad e || Torch.requires_grad b)
         /\ Torch.requires_grad linear
            = (Torch.requires_grad e || Torch.requires_grad b)).
Proof.
  intros Hb He. apply trailing_dim_Some in He. destruct He as [lead He].
  split.
  - rewrite (Hard_forward_run (__init__ None) e b lead n st He Hb).
    rewrite (Linear_forward_run (__init__ None) e b lead n st He Hb).
    eexists. eexists. repeat split.
  - rewrite (Hard_forward_run (__init__ (Some true)) e b lead n st He Hb).
    rewrite (Linear_forward_run (__init__ (Some true)) e b lead n st He Hb).
    eexists. eexists. repeat split.
Qed.

End GradMode.

(** ** A bias direction that is not a vector *)

Section DirectionRank.

Context {A : Type} `{Scalar A}.

Lemma matmul_outcome (x w : tensor A) (k p : nat) (st : state) :
  shape w = [k; p] ->
  (exists m, matmul x w st = (Ok m, st))
  \/ matmul x w st = (Raise ShapeMismatch, st).
Proof.
  intros Hw. unfold matmul, bind, is_grad_enabled. rewrite Hw.
  destruct (split_last (shape x)) as [[lead d]|]; [|now right].
  destruct (d =? k); [left; eexists; reflexivity|now right].
Qed.

Lemma pointwise_outcome (f : A -> A -> A) (x y : tensor A) (st : state) :
  (exists m, pointwise f x y st = (Ok m, st))
  \/ pointwise f x y st = (Raise ShapeMismatch, st).
Proof.
  unfold pointwise, bind, is_grad_enabled.
  destruct (broadcast_shapes (shape x) (shape y));
    [left; eexists; reflexivity|now right].
Qed.

Lemma dot_not_vector (x y : tensor A) (st : state) :
  (forall n, shape x <> [n]) ->
  dot x y st = (Raise ShapeMismatch, st).
Proof.
  intros Hx. unfold dot, bind, is_grad_enabled.
  destruct (shape x) as [|a [|a' s]]; try reflexivity.
  now elim (Hx a).
Qed.

(** X3. [HardDebiaser.forward] raises [ShapeMismatch] on every
    [bias_direction] that is not 1-d (a 0-d number, a row, a column, a
    matrix), whatever the embeddings: if nothing fails earlier,
    [dot(bias_direction, bias_direction)] does. *)
Theorem hard_needs_vector_direction (self : Debiaser) (e b : tensor A)
        (st : state) :
  (forall n, shape b <> [n]) ->
  HardDebiaser.forward self e b st = (Raise ShapeMismatch, st).
Proof.
  intros Hb. destruct st as [g0].
  unfold HardDebiaser.forward, set_grad_enabled.
  unfold bind at 1. rewrite reshape_col_run.
  unfold bind at 1.
  match goal with
  | |- context [matmul e ?c ?s] =>
      destruct (matmul_outcome e c (numel (shape b)) 1 s eq_refl)
        as [[m Hm]|Hm]
  end; rewrite Hm; [|reflexivity].
  unfold mul. unfold bind at 1.
  match goal with
  | |- context [pointwise smul m b ?s] =>
      destruct (pointwise_outcome smul m b s) as [[p Hp]|Hp]
  end; rewrite Hp; [|reflexivity].
  unfold bind at 1. now rewrite (dot_not_vector b b _ Hb).
Qed.

Lemma broadcast_shapes_row (lead : list nat) (r n : nat) :
  broadcast_shapes ((lead ++ [r]) ++ [1]) [1; n] = Some ((lead ++ [r]) ++ [n]).
Proof.
  unfold broadcast_shapes. rewrite !rev_app_distr. simpl.
  rewrite broadcast_rev_nil_r.
  destruct r as [|[|r]], n as [|[|n]]; simpl;
    now rewrite rev_involutive, <- app_assoc.
Qed.

Lemma source_index_row (l : list nat) (r n k : nat) :
  source_index [n; 1] (n :: r :: l) k = k mod n.
Proof.
  simpl. destruct (Nat.eqb_spec n 1) as [->|_].
  - rewrite Nat.mod_1_r. lia.
  - lia.
Qed.

(** X4. [LinearDebiaser.forward] does not check that [bias_direction] is a
    vector: on a row of sizes [[1, n]] and embeddings with at least two axes
    and trailing size [n] it returns, with the sizes of the embeddings, the
    very tensor it returns for the same numbers given as a vector. *)
Theorem linear_accepts_row_direction (self : Debiaser) (e b : tensor A)
        (lead : list nat) (r n : nat) (st : state) :
  shape b = [1; n] ->
  shape e = lead ++ [r; n] ->
  LinearDebiaser.forward self e b st
  = LinearDebiaser.forward self e (as_vector n b) st
  /\ exists out, LinearDebiaser.forward self e b st = (Ok out, st)
                 /\ shape out = shape e.
Proof.
  intros Hb He.
  assert (He' : shape e = (lead ++ [r]) ++ [n]) by now rewrite <- app_assoc.
  rewrite (Linear_forward_run self e (as_vector n b) (lead ++ [r]) n st He'
                              eq_refl).
  assert (Hrun : LinearDebiaser.forward self e b st
                 = (Ok {| shape := (lead ++ [r]) ++ [n];
                          data := map (linear_entry e b n)
                                      (seq 0 (numel (lead ++ [r]) * n));
                          Torch.requires_grad :=
                            requires_grad self
                            && (Torch.requires_grad e
                                || Torch.requires_grad b) |}, st)).
  { destruct st as [g0].
    unfold LinearDebiaser.forward, set_grad_enabled.
    set (g := requires_grad self). simpl grad_enabled.
    unfold bind at 1. rewrite reshape_col_run.
    set (col := {| shape := [numel (shape b); 1]; data := data b;
                   Torch.requires_grad := _ |}).
    assert (Hcol : shape col = [n; 1]).
    { simpl. rewrite Hb. simpl. f_equal. lia. }
    unfold bind at 1.
    rewrite (matmul_run e col (lead ++ [r]) n 1 (mkState g) He' Hcol).
    set (m := {| shape := (lead ++ [r]) ++ [1]; data := _;
                 Torch.requires_grad := _ |}).
    unfold mul, sub. unfold bind at 1.
    rewrite (pointwise_run smul m b ((lead ++ [r]) ++ [n]) (mkState g)).
    2:{ simpl shape. rewrite Hb. apply broadcast_shapes_row. }
    set (p := {| shape := (lead ++ [r]) ++ [n]; data := _;
                 Torch.requires_grad := _ |}).
    rewrite (pointwise_run ssub e p ((lead ++ [r]) ++ [n]) (mkState g)).
    2:{ simpl shape. rewrite He'. apply broadcast_shapes_same. }
    assert (HN : numel ((lead ++ [r]) ++ [n]) = numel (lead ++ [r]) * n)
      by apply numel_snoc.
    assert (HR : numel (rev ((lead ++ [r]) ++ [n])) = numel (lead ++ [r]) * n)
      by now rewrite numel_rev.
    do 2 f_equal. f_equal.
    - rewrite HN. apply map_ext_in. intros k Hk. apply in_seq in Hk.
      assert (Hlt : k < numel (lead ++ [r]) * n) by lia. clear Hk.
      unfold linear_entry.
      rewrite He'. simpl (shape p).
      rewrite source_index_same by now rewrite HR.
      f_equal.
      unfold item at 1. simpl (data p). rewrite HN, nth_map_seq by exact Hlt.
      simpl (shape m). rewrite Hb, !rev_app_distr. cbn [rev app].
      rewrite source_index_row.
      rewrite (source_index_col (r :: rev lead) n k).
      2:{ change (r :: rev lead) with (rev [r] ++ rev lead).
          now rewrite <- rev_app_distr, numel_rev. }
      assert (Hq : k / n < numel (lead ++ [r]) * 1).
      { rewrite Nat.mul_1_r. apply Nat.Div0.div_lt_upper_bound. lia. }
      unfold item at 1. unfold m. cbn [data].
      rewrite nth_map_seq by exact Hq.
      f_equal. unfold row_dot. apply sum_upto_ext. intros t _.
      now rewrite Nat.div_1_r, Nat.mod_1_r, Nat.mul_1_r, Nat.add_0_r.
    - unfold tracked. simpl. apply tracked_chain_linear. }
  rewrite Hrun. split.
  - reflexivity.
  - eexists. split; [reflexivity|]. now rewrite He'.
Qed.

End DirectionRank.

(** ** Batches, vector by vector *)

Section Batches.

Context {A : Type} `{Scalar A}.

Lemma map_seq_from {B : Type} (f : nat -> B) (a n : nat) :
  map f (seq a n) = map (fun t => f (a + t)) (seq 0 n).
Proof.
  revert a. induction n as [|n IH]; intros a; [reflexivity|].
  simpl. rewrite Nat.add_0_r. f_equal.
  rewrite IH, <- seq_shift, map_map.
  apply map_ext. intros t. f_equal. lia.
Qed.

Lemma firstn_seq_le (n a len : nat) :
  n <= len -> firstn n (seq a len) = seq a n.
Proof.
  revert a len. induction n as [|n IH]; intros a len Hn; [reflexivity|].
  destruct len as [|len]; [lia|].
  simpl. f_equal. apply IH. lia.
Qed.

(** The [i]-th vector of a tensor given by its entries. *)
Lemma vector_at_entries (f : nat -> A) (s : list nat) (g : bool)
      (r n i : nat) :
  i < r ->
  vector_at {| shape := s; data := map f (seq 0 (r * n));
               Torch.requires_grad := g |} n i
  = map (fun t => f (i * n + t)) (seq 0 n).
Proof.
  intros Hi. unfold vector_at. cbn [data].
  rewrite skipn_map, firstn_map, skipn_seq, firstn_seq_le by nia.
  apply map_seq_from.
Qed.

Lemma row_index_nat (i n t : nat) :
  t < n -> (i * n + t) / n = i /\ (i * n + t) mod n = t.
Proof.
  intros Ht. split.
  - symmetry. apply (Nat.div_unique _ _ _ t); lia.
  - symmetry. apply (Nat.mod_unique _ _ i); lia.
Qed.

Lemma row_dot_vector_tensor (e b : tensor A) (n i : nat) (g : bool) :
  row_dot (vector_tensor (vector_at e n i) g) b n 0 = row_dot e b n i.
Proof.
  unfold row_dot. apply sum_upto_ext. intros t Ht.
  f_equal. unfold item at 1. cbn [vector_tensor data].
  now rewrite nth_vector_at.
Qed.

Lemma hard_entry_vector_tensor (e b : tensor A) (n i t : nat) (g : bool) :
  t < n ->
  hard_entry (vector_tensor (vector_at e n i) g) b n t
  = hard_entry e b n (i * n + t).
Proof.
  intros Ht. unfold hard_entry.
  destruct (row_index_nat i n t Ht) as [-> ->].
  rewrite Nat.div_small, Nat.mod_small by exact Ht.
  rewrite row_dot_vector_tensor.
  f_equal. unfold item at 1. cbn [vector_tensor data].
  now rewrite nth_vector_at.
Qed.

Lemma linear_entry_vector_tensor (e b : tensor A) (n i t : nat) (g : bool) :
  t < n ->
  linear_entry (vector_tensor (vector_at e n i) g) b n t
  = linear_entry e b n (i * n + t).
Proof.
  intros Ht. unfold linear_entry.
  destruct (row_index_nat i n t Ht) as [-> ->].
  rewrite Nat.div_small, Nat.mod_small by exact Ht.
  rewrite row_dot_vector_tensor.
  f_equal. unfold item at 1. cbn [vector_tensor data].
  now rewrite nth_vector_at.
Qed.

(** X5. The vectors of a batch are debiased independently of one another:
    the [i]-th vector of the result is what [forward] returns when it is
    given the [i]-th vector of the embeddings alone, as a 1-d tensor. *)
Theorem forward_vector_by_vector (self : Debiaser) (e b : tensor A)
        (lead : list nat) (n i : nat) (st : state) :
  shape b = [n] ->
  shape e = lead ++ [n] ->
  well_formed e ->
  i < numel lead ->
  (exists out one,
      HardDebiaser.forward self e b st = (Ok out, st)
      /\ HardDebiaser.forward
           self (vector_tensor (vector_at e n i) (Torch.requires_grad e)) b st
         = (Ok one, st)
      /\ data one = vector_at out n i)
  /\ (exists out one,
         LinearDebiaser.forward self e b st = (Ok out, st)
         /\ LinearDebiaser.forward
              self (vector_tensor (vector_at e n i) (Torch.requires_grad e))
              b st
            = (Ok one, st)
         /\ data one = vector_at out n i).
Proof.
  intros Hb He Hwf Hi.
  assert (Hlen : length (vector_at e n i) = n).
  { apply length_vector_at. unfold well_formed in Hwf.
    rewrite Hwf, He, numel_snoc. nia. }
  assert (Hv : shape (vector_tensor (vector_at e n i) (Torch.requires_grad e))
               = [] ++ [n]).
  { cbn [vector_tensor shape]. now rewrite Hlen. }
  split.
  - rewrite (Hard_forward_run self e b lead n st He Hb).
    rewrite (Hard_forward_run self _ b [] n st Hv Hb).
    eexists. eexists. split; [reflexivity|]. split; [reflexivity|].
    cbn [data]. rewrite vector_at_entries by exact Hi.
    change (numel [] * n) with (n + 0). rewrite Nat.add_0_r.
    apply map_ext_in. intros t Ht. apply in_seq in Ht.
    apply hard_entry_vector_tensor. lia.
  - rewrite (Linear_forward_run self e b lead n st He Hb).
    rewrite (Linear_forward_run self _ b [] n st Hv Hb).
    eexists. eexists. split; [reflexivity|]. split; [reflexivity|].
    cbn [data]. rewrite vector_at_entries by exact Hi.
    change (numel [] * n) with (n + 0). rewrite Nat.add_0_r.
    apply map_ext_in. intros t Ht. apply in_seq in Ht.
    apply linear_entry_vector_tensor. lia.
Qed.

(** X6. Only the trailing size matters: two embeddings with the same
    storage and the same trailing size, whatever their leading sizes (a
    batch and the same batch with its leading axes merged or split), give
    results with the same storage. *)
Theorem forward_ignores_leading_sizes (self : Debiaser) (e e' b : tensor A)
        (lead lead' : list nat) (n : nat) (st : state) :
  shape b = [n] ->
  shape e = lead ++ [n] ->
  shape e' = lead' ++ [n] ->
  data e' = data e ->
  numel lead' = numel lead ->
  (exists out out',
      HardDebiaser.forward self e b st = (Ok out, st)
      /\ HardDebiaser.forward self e' b st = (Ok out', st)
      /\ shape out = shape e /\ shape out' = shape e'
      /\ data out' = data out)
  /\ (exists out out',
         LinearDebiaser.forward self e b st = (Ok out, st)
         /\ LinearDebiaser.forward self e' b st = (Ok out', st)
         /\ shape out = shape e /\ shape out' = shape e'
         /\ data out' = data out).
Proof.
  intros Hb He He' Hd Hn.
  split.
  - rewrite (Hard_forward_run self e b lead n st He Hb).
    rewrite (Hard_forward_run self e' b lead' n st He' Hb).
    eexists. eexists. split; [reflexivity|]. split; [reflexivity|].
    cbn [shape data]. rewrite He, He', Hn. repeat split.
    apply map_ext. intros k. unfold hard_entry, row_dot, item.
    now rewrite Hd.
  - rewrite (Linear_forward_run self e b lead n st He Hb).
    rewrite (Linear_forward_run self e' b lead' n st He' Hb).
    eexists. eexists. split; [reflexivity|]. split; [reflexivity|].
    cbn [shape data]. rewrite He, He', Hn. repeat split.
    apply map_ext. intros k. unfold linear_entry, row_dot, item.
    now rewrite Hd.
Qed.

End Batches.

(** ** The debiasers as projections, in exact arithmetic *)

Section Projections.

Local Open Scope Qc_scope.

Lemma sum_upto_lincomb (n : nat) (f g : nat -> Qc) (c1 c2 : Qc) :
  sum_upto n (fun t => c1 * f t + c2 * g t)
  = c1 * sum_upto n f + c2 * sum_upto n g.
Proof.
  induction n as [|n IH]; simpl; qc_ops; [ring|].
  rewrite IH. ring.
Qed.

Lemma sum_upto_scale (n : nat) (f : nat -> Qc) (c : Qc) :
  sum_upto n (fun t => c * f t) = c * sum_upto n f.
Proof.
  induction n as [|n IH]; simpl; qc_ops; [ring|].
  rewrite IH. ring.
Qed.

(** Inner product of a vector of a tensor with a list, by index. *)
Lemma inner_vector_list (x : tensor Qc) (v : list Qc) (n i : nat) :
  ((i + 1) * n <= length (data x))%nat ->
  length v = n ->
  inner (vector_at x n i) v
  = sum_upto n (fun t => item x (i * n + t) * nth t v 0).
Proof.
  intros Hx Hv.
  rewrite (inner_sum _ _ n) by (try apply length_vector_at; assumption).
  apply sum_upto_ext. intros t Ht. now rewrite nth_vector_at.
Qed.

Lemma row_dot_inner (e b : tensor Qc) (lead : list nat) (n i : nat) :
  shape e = lead ++ [n] ->
  well_formed e ->
  length (data b) = n ->
  (i < numel lead)%nat ->
  inner (vector_at e n i) (data b) = row_dot e b n i.
Proof.
  intros He Hwf Hb Hi. apply inner_vector_at; [|exact Hb].
  unfold well_formed in Hwf. rewrite Hwf, He, numel_snoc. nia.
Qed.

(** What is left of a vector of [HardDebiaser]'s result along any [v]. *)
Lemma hard_row_against (e b : tensor Qc) (v : nat -> Qc) (n i : nat) :
  sq_norm b n <> 0 ->
  sum_upto n (fun t => hard_entry e b n (i * n + t) * v t)
  = sum_upto n (fun t => item e (i * n + t) * v t)
    - (row_dot e b n i / sq_norm b n) * sum_upto n (fun t => item b t * v t).
Proof.
  intros Hsq. rewrite <- sum_upto_sub_scale.
  apply sum_upto_ext. intros t Ht. unfold hard_entry.
  destruct (row_index i n t Ht) as [-> ->]. qc_ops. now field.
Qed.

Lemma linear_row_against (e b : tensor Qc) (v : nat -> Qc) (n i : nat) :
  sum_upto n (fun t => linear_entry e b n (i * n + t) * v t)
  = sum_upto n (fun t => item e (i * n + t) * v t)
    - row_dot e b n i * sum_upto n (fun t => item b t * v t).
Proof.
  rewrite <- sum_upto_sub_scale.
  apply sum_upto_ext. intros t Ht. unfold linear_entry.
  destruct (row_index i n t Ht) as [-> ->]. qc_ops. ring.
Qed.

Lemma Forall2_map_seq {B : Type} (P : B -> B -> Prop) (f g : nat -> B)
      (r : nat) :
  (forall i, (i < r)%nat -> P (f i) (g i)) ->
  Forall2 P (map f (seq 0 r)) (map g (seq 0 r)).
Proof.
  intros HP.
  assert (G : forall l, (forall i, In i l -> (i < r)%nat) ->
                        Forall2 P (map f l) (map g l)).
  { induction l as [|a l IH]; intros Hl; simpl; constructor.
    - apply HP, Hl. now left.
    - apply IH. intros i Hi. apply Hl. now right. }
  apply G. intros i Hi. apply in_seq in Hi. lia.
Qed.

(** Vectors of two tensors of the same sizes, pairwise. *)
Lemma vectors_pairwise (out e : tensor Qc) (lead : list nat) (n : nat)
      (P : list Qc -> list Qc -> Prop) :
  shape out = lead ++ [n] ->
  shape e = lead ++ [n] ->
  (forall i, (i < numel lead)%nat -> P (vector_at out n i) (vector_at e n i)) ->
  Forall2 P (vectors out) (vectors e).
Proof.
  intros Ho He HP. unfold vectors. rewrite Ho, He, split_last_snoc.
  now apply Forall2_map_seq.
Qed.

Lemma orthogonal_rows (e b : tensor Qc) (lead : list nat) (n : nat) :
  shape e = lead ++ [n] ->
  well_formed e ->
  length (data b) = n ->
  Forall (fun v => inner v (data b) = 0) (vectors e) ->
  forall i, (i < numel lead)%nat -> row_dot e b n i = 0.
Proof.
  intros He Hwf Hb Hall i Hi.
  rewrite <- (row_dot_inner e b lead n i He Hwf Hb Hi).
  apply (proj1 (Forall_forall _ _) Hall).
  unfold vectors. rewrite He, split_last_snoc.
  apply in_map, in_seq. lia.
Qed.

Lemma entries_unchanged (e : tensor Qc) (f : nat -> Qc) (lead : list nat)
      (n : nat) :
  shape e = lead ++ [n] ->
  well_formed e ->
  (forall k, (k < numel lead * n)%nat -> f k = item e k) ->
  map f (seq 0 (numel lead * n)) = data e.
Proof.
  intros He Hwf Hf. unfold well_formed in Hwf.
  rewrite He, numel_snoc in Hwf.
  rewrite <- (map_item_seq e), Hwf.
  apply map_ext_in. intros k Hk. apply in_seq in Hk. apply Hf. lia.
Qed.

(** X7. Embeddings that have no component along [b] come back unchanged
    from both variants (for [HardDebiaser], [b . b <> 0]). *)
Theorem forward_fixes_orthogonal (self : Debiaser) (e b : tensor Qc)
        (n : nat) (st : state) :
  shape b = [n] ->
  well_formed b ->
  trailing_dim e = Some n ->
  well_formed e ->
  Forall (fun v => inner v (data b) = 0) (vectors e) ->
  (inner (data b) (data b) <> 0 ->
   exists out, HardDebiaser.forward self e b st = (Ok out, st)
               /\ shape out = shape e /\ data out = data e)
  /\ (exists out, LinearDebiaser.forward self e b st = (Ok out, st)
                  /\ shape out = shape e /\ data out = data e).
Proof.
  intros Hb Hwfb He Hwf Hall.
  apply trailing_dim_Some in He. destruct He as [lead He].
  pose proof (vector_length b n Hb Hwfb) as Hl.
  pose proof (orthogonal_rows e b lead n He Hwf Hl Hall) as Hrow.
  rewrite (inner_self b n Hl).
  split.
  - intros Hsq.
    rewrite (Hard_forward_run self e b lead n st He Hb).
    eexists. split; [reflexivity|]. cbn [shape data].
    split; [now rewrite He|].
    apply (entries_unchanged e _ lead n He Hwf). intros k Hk.
    unfold hard_entry. rewrite Hrow.
    + qc_ops. now field.
    + apply Nat.Div0.div_lt_upper_bound. lia.
  - rewrite (Linear_forward_run self e b lead n st He Hb).
    eexists. split; [reflexivity|]. cbn [shape data].
    split; [now rewrite He|].
    apply (entries_unchanged e _ lead n He Hwf). intros k Hk.
    unfold linear_entry. rewrite Hrow.
    + qc_ops. ring.
    + apply Nat.Div0.div_lt_upper_bound. lia.
Qed.

(** X8. What [LinearDebiaser] leaves along [b]: every vector of the result
    has inner product [(e_i . b) * (1 - b . b)] with [b], where [e_i] is the
    corresponding vector of the embeddings.  The component is removed
    exactly when [b . b = 1] (or it was 0 already). *)
Theorem linear_residual (self : Debiaser) (e b : tensor Qc) (n : nat)
        (st : state) :
  shape b = [n] ->
  well_formed b ->
  trailing_dim e = Some n ->
  well_formed e ->
  exists out,
    LinearDebiaser.forward self e b st = (Ok out, st)
    /\ Forall2 (fun vo ve =>
                  inner vo (data b)
                  = inner ve (data b) * (1 - inner (data b) (data b)))
               (vectors out) (vectors e).
Proof.
  intros Hb Hwfb He Hwf.
  apply trailing_dim_Some in He. destruct He as [lead He].
  pose proof (vector_length b n Hb Hwfb) as Hl.
  rewrite (Linear_forward_run self e b lead n st He Hb).
  eexists. split; [reflexivity|].
  apply (vectors_pairwise _ e lead n); [reflexivity|exact He|].
  intros i Hi.
  rewrite inner_entries by assumption.
  rewrite (row_dot_inner e b lead n i He Hwf Hl Hi).
  rewrite (inner_self b n Hl).
  apply linear_row_dot_any.
Qed.

(** X9. Only the component along [b] is touched: for every [v] with
    [b . v = 0], each vector of the result has the same inner product with
    [v] as the vector of the embeddings it comes from. *)
Theorem forward_keeps_complement (self : Debiaser) (e b : tensor Qc)
        (v : list Qc) (n : nat) (st : state) :
  shape b = [n] ->
  well_formed b ->
  trailing_dim e = Some n ->
  well_formed e ->
  length v = n ->
  inner (data b) v = 0 ->
  (inner (data b) (data b) <> 0 ->
   exists out, HardDebiaser.forward self e b st = (Ok out, st)
               /\ Forall2 (fun vo ve => inner vo v = inner ve v)
                          (vectors out) (vectors e))
  /\ (exists out, LinearDebiaser.forward self e b st = (Ok out, st)
                  /\ Forall2 (fun vo ve => inner vo v = inner ve v)
                             (vectors out) (vectors e)).
Proof.
  intros Hb Hwfb He Hwf Hv Hbv.
  apply trailing_dim_Some in He. destruct He as [lead He].
  pose proof (vector_length b n Hb Hwfb) as Hl.
  rewrite (inner_sum _ _ n Hl Hv) in Hbv.
  rewrite (inner_self b n Hl).
  assert (Hin : forall i, (i < numel lead)%nat ->
                          ((i + 1) * n <= length (data e))%nat).
  { intros i Hi. unfold well_formed in Hwf.
    rewrite Hwf, He, numel_snoc. nia. }
  assert (Hout : forall (f : nat -> Qc) (g : bool) i,
             (i < numel lead)%nat ->
             inner (vector_at {| shape := lead ++ [n];
                                 data := map f (seq 0 (numel lead * n));
                                 Torch.requires_grad := g |} n i) v
             = sum_upto n (fun t => f (i * n + t)%nat * nth t v 0)).
  { intros f g i Hi. rewrite inner_vector_list.
    - apply sum_upto_ext. intros t Ht.
      now rewrite item_entries by now apply row_entry_bound.
    - cbn [data]. rewrite length_map, length_seq. nia.
    - exact Hv. }
  split.
  - intros Hsq.
    rewrite (Hard_forward_run self e b lead n st He Hb).
    eexists. split; [reflexivity|].
    apply (vectors_pairwise _ e lead n); [reflexivity|exact He|].
    intros i Hi. rewrite Hout by exact Hi.
    rewrite (hard_row_against e b (fun t => nth t v 0) n i Hsq).
    change (sum_upto n (fun t => item b t * nth t v 0)) with
      (sum_upto n (fun t => smul (nth t (data b) szero) (nth t v szero))).
    rewrite Hbv, inner_vector_list by auto. ring.
  - rewrite (Linear_forward_run self e b lead n st He Hb).
    eexists. split; [reflexivity|].
    apply (vectors_pairwise _ e lead n); [reflexivity|exact He|].
    intros i Hi. rewrite Hout by exact Hi.
    rewrite (linear_row_against e b (fun t => nth t v 0) n i).
    change (sum_upto n (fun t => item b t * nth t v 0)) with
      (sum_upto n (fun t => smul (nth t (data b) szero) (nth t v szero))).
    rewrite Hbv, inner_vector_list by auto. ring.
Qed.

Lemma item_scaled (c : Qc) (b : tensor Qc) (t : nat) :
  item (scaled c b) t = c * item b t.
Proof.
  unfold item, scaled. cbn [data]. qc_ops.
  destruct (Nat.lt_ge_cases t (length (data b))) as [Ht|Ht].
  - rewrite (nth_indep _ 0 (c * 0)) by now rewrite length_map.
    apply (map_nth (Qcmult c)).
  - rewrite !nth_overflow by (try rewrite length_map; exact Ht). ring.
Qed.

Lemma hard_entry_scaled (c : Qc) (e b : tensor Qc) (n k : nat) :
  c <> 0 -> sq_norm b n <> 0 ->
  hard_entry e (scaled c b) n k = hard_entry e b n k.
Proof.
  intros Hc Hsq. unfold hard_entry, row_dot, sq_norm. qc_ops.
  rewrite (sum_upto_ext n (fun t => item e (k / n * n + t)
                                    * item (scaled c b) t)
             (fun t => c * (item e (k / n * n + t) * item b t)))
    by (intros t _; rewrite item_scaled; ring).
  rewrite (sum_upto_ext n (fun t => item (scaled c b) t * item (scaled c b) t)
             (fun t => (c * c) * (item b t * item b t)))
    by (intros t _; rewrite item_scaled; ring).
  rewrite !sum_upto_scale, item_scaled.
  field. split; assumption.
Qed.

(** X10. [HardDebiaser.forward] depends on the direction of [b] only, not
    on its length or sign: multiplying [b] by any [c <> 0] changes nothing
    in what it returns. *)
Theorem hard_scale_invariant (self : Debiaser) (e b : tensor Qc) (c : Qc)
        (n : nat) (st : state) :
  shape b = [n] ->
  well_formed b ->
  inner (data b) (data b) <> 0 ->
  c <> 0 ->
  HardDebiaser.forward self e (scaled c b) st
  = HardDebiaser.forward self e b st.
Proof.
  intros Hb Hwfb Hsq Hc.
  rewrite (inner_self b n (vector_length b n Hb Hwfb)) in Hsq.
  assert (Hcb : shape (scaled c b) = [n]) by exact Hb.
  destruct (trailing_dim_dec e n) as [Heq|Hne].
  - apply trailing_dim_Some in Heq. destruct Heq as [lead He].
    rewrite (Hard_forward_run self e (scaled c b) lead n st He Hcb).
    rewrite (Hard_forward_run self e b lead n st He Hb).
    do 2 f_equal. f_equal.
    apply map_ext. intros k. now apply hard_entry_scaled.
  - rewrite (Hard_forward_raises self e (scaled c b) n st Hcb Hne).
    now rewrite (Hard_forward_raises self e b n st Hb Hne).
Qed.

(** X11. What [LinearDebiaser] returns after [HardDebiaser] is what
    [HardDebiaser] returned: nothing is left for it to remove, whatever the
    norm of [b]. *)
Theorem linear_after_hard (self : Debiaser) (e b : tensor Qc) (n : nat)
        (st : state) :
  shape b = [n] ->
  well_formed b ->
  inner (data b) (data b) <> 0 ->
  trailing_dim e = Some n ->
  exists out,
    HardDebiaser.forward self e b st = (Ok out, st)
    /\ LinearDebiaser.forward self out b st = (Ok out, st).
Proof.
  intros Hb Hwfb Hsq He.
  apply trailing_dim_Some in He. destruct He as [lead He].
  rewrite (inner_self b n (vector_length b n Hb Hwfb)) in Hsq.
  rewrite (Hard_forward_run self e b lead n st He Hb).
  eexists. split; [reflexivity|].
  match goal with
  | |- LinearDebiaser.forward _ ?o _ _ = _ =>
      rewrite (Linear_forward_run self o b lead n st (eq_refl (lead ++ [n]))
                                  Hb)
  end.
  do 2 f_equal. f_equal.
  - apply map_ext_in. intros k Hk. apply in_seq in Hk.
    assert (Hlt : (k < numel lead * n)%nat) by lia. clear Hk.
    assert (Hq : (k / n < numel lead)%nat).
    { apply Nat.Div0.div_lt_upper_bound. lia. }
    unfold linear_entry at 1.
    rewrite item_entries by exact Hlt.
    rewrite row_dot_entries by exact Hq.
    rewrite hard_row_dot by exact Hsq.
    qc_ops. ring.
  - simpl. apply tracked_again.
Qed.

Lemma item_lincomb (c1 c2 : Qc) (x y : tensor Qc) (k : nat) :
  length (data x) = length (data y) ->
  item (lincomb c1 x c2 y) k = c1 * item x k + c2 * item y k.
Proof.
  intros Hl. unfold item, lincomb. cbn [data]. qc_ops.
  destruct (Nat.lt_ge_cases k (length (data x))) as [Hk|Hk].
  - rewrite (nth_indep _ 0 (c1 * fst (0, 0) + c2 * snd (0, 0)))
      by (rewrite length_map, length_combine; lia).
    rewrite (map_nth (fun xy => c1 * fst xy + c2 * snd xy)).
    now rewrite combine_nth by exact Hl.
  - rewrite !nth_overflow
      by (try rewrite length_map, length_combine; lia).
    ring.
Qed.

Lemma row_dot_lincomb (c1 c2 : Qc) (x y b : tensor Qc) (n i : nat) :
  length (data x) = length (data y) ->
  row_dot (lincomb c1 x c2 y) b n i
  = c1 * row_dot x b n i + c2 * row_dot y b n i.
Proof.
  intros Hl. unfold row_dot. rewrite <- sum_upto_lincomb.
  apply sum_upto_ext. intros t _. qc_ops.
  rewrite item_lincomb by exact Hl. ring.
Qed.

Lemma combine_map_seq {B C : Type} (f : nat -> B) (g : nat -> C) (l : list nat) :
  combine (map f l) (map g l) = map (fun k => (f k, g k)) l.
Proof.
  induction l as [|a l IH]; simpl; [reflexivity|]. now rewrite IH.
Qed.

(** X12. Both variants are linear in the embeddings: the result for
    [c1 * e1 + c2 * e2] is [c1] times the result for [e1] plus [c2] times
    the result for [e2]. *)
Theorem forward_linear (self : Debiaser) (e1 e2 b : tensor Qc) (c1 c2 : Qc)
        (lead : list nat) (n : nat) (st : state) :
  shape b = [n] ->
  well_formed b ->
  shape e1 = lead ++ [n] ->
  shape e2 = lead ++ [n] ->
  well_formed e1 ->
  well_formed e2 ->
  (inner (data b) (data b) <> 0 ->
   exists o1 o2 o,
     HardDebiaser.forward self e1 b st = (Ok o1, st)
     /\ HardDebiaser.forward self e2 b st = (Ok o2, st)
     /\ HardDebiaser.forward self (lincomb c1 e1 c2 e2) b st = (Ok o, st)
     /\ shape o = shape e1
     /\ data o = data (lincomb c1 o1 c2 o2))
  /\ (exists o1 o2 o,
         LinearDebiaser.forward self e1 b st = (Ok o1, st)
         /\ LinearDebiaser.forward self e2 b st = (Ok o2, st)
         /\ LinearDebiaser.forward self (lincomb c1 e1 c2 e2) b st
            = (Ok o, st)
         /\ shape o = shape e1
         /\ data o = data (lincomb c1 o1 c2 o2)).
Proof.
  intros Hb Hwfb He1 He2 Hwf1 Hwf2.
  assert (Hl : length (data e1) = length (data e2)).
  { unfold well_formed in *. now rewrite Hwf1, Hwf2, He1, He2. }
  assert (He : shape (lincomb c1 e1 c2 e2) = lead ++ [n]) by exact He1.
  rewrite (inner_self b n (vector_length b n Hb Hwfb)).
  split.
  - intros Hsq.
    rewrite (Hard_forward_run self e1 b lead n st He1 Hb).
    rewrite (Hard_forward_run self e2 b lead n st He2 Hb).
    rewrite (Hard_forward_run self _ b lead n st He Hb).
    eexists. eexists. eexists.
    split; [reflexivity|]. split; [reflexivity|]. split; [reflexivity|].
    cbn [shape]. split; [now rewrite He1|].
    match goal with
    | |- _ = data (lincomb _ ?x _ ?y) =>
        change (data (lincomb c1 x c2 y))
          with (map (fun xy => c1 * fst xy + c2 * snd xy)
                    (combine (data x) (data y)))
    end.
    cbn [data].
    rewrite combine_map_seq, map_map. apply map_ext. intros k.
    cbn [fst snd]. unfold hard_entry.
    rewrite row_dot_lincomb, item_lincomb by exact Hl.
    qc_ops. now field.
  - rewrite (Linear_forward_run self e1 b lead n st He1 Hb).
    rewrite (Linear_forward_run self e2 b lead n st He2 Hb).
    rewrite (Linear_forward_run self _ b lead n st He Hb).
    eexists. eexists. eexists.
    split; [reflexivity|]. split; [reflexivity|]. split; [reflexivity|].
    cbn [shape]. split; [now rewrite He1|].
    match goal with
    | |- _ = data (lincomb _ ?x _ ?y) =>
        change (data (lincomb c1 x c2 y))
          with (map (fun xy => c1 * fst xy + c2 * snd xy)
                    (combine (data x) (data y)))
    end.
    cbn [data].
    rewrite combine_map_seq, map_map. apply map_ext. intros k.
    cbn [fst snd]. unfold linear_entry.
    rewrite row_dot_lincomb, item_lincomb by exact Hl.
    qc_ops. ring.
Qed.

Lemma sum_upto_comm (n : nat) (f g : nat -> Qc) :
  sum_upto n (fun t => f t * g t) = sum_upto n (fun t => g t * f t).
Proof. apply sum_upto_ext. intros t _. qc_ops. ring. Qed.

Lemma Qc_sub_nonneg_le (x y : Qc) : 0 <= y -> x - y <= x.
Proof.
  intros Hy. apply Qcle_minus_iff.
  now replace (x + - (x - y)) with y by ring.
Qed.

Lemma Qc_square_over_nonneg (r d : Qc) : 0 <= d -> d <> 0 -> 0 <= r * r / d.
Proof.
  intros Hd Hne.
  replace (r * r / d) with ((r / d) * (r / d) * d) by now field.
  replace 0 with (0 * d) by ring.
  apply Qcmult_le_compat_r; [apply Qc_square_nonneg|exact Hd].
Qed.

(** Squared length of a vector of [HardDebiaser]'s result. *)
Lemma hard_row_square (e b : tensor Qc) (n i : nat) :
  sq_norm b n <> 0 ->
  sum_upto n (fun t => hard_entry e b n (i * n + t)
                       * hard_entry e b n (i * n + t))
  = sum_upto n (fun t => item e (i * n + t) * item e (i * n + t))
    - row_dot e b n i * row_dot e b n i / sq_norm b n.
Proof.
  intros Hsq.
  rewrite (hard_row_against e b (fun t => hard_entry e b n (i * n + t)) n i
                            Hsq).
  rewrite (sum_upto_comm n (fun t => item b t)).
  rewrite (hard_row_dot e b n i Hsq).
  rewrite (sum_upto_comm n (fun t => item e (i * n + t))).
  rewrite (hard_row_against e b (fun t => item e (i * n + t)) n i Hsq).
  rewrite (sum_upto_comm n (fun t => item b t)).
  change (sum_upto n (fun t => item e (i * n + t) * item b t))
    with (row_dot e b n i).
  now field.
Qed.

(** X13. [HardDebiaser] never lengthens a vector: the squared length of each
    vector of the result is that of the vector it comes from minus
    [(e_i . b)^2 / (b . b)]. *)
Theorem hard_shortens (self : Debiaser) (e b : tensor Qc) (n : nat)
        (st : state) :
  shape b = [n] ->
  well_formed b ->
  inner (data b) (data b) <> 0 ->
  trailing_dim e = Some n ->
  well_formed e ->
  exists out,
    HardDebiaser.forward self e b st = (Ok out, st)
    /\ Forall2 (fun vo ve =>
                  inner vo vo
                  = inner ve ve
                    - inner ve (data b) * inner ve (data b)
                      / inner (data b) (data b)
                  /\ inner vo vo <= inner ve ve)
               (vectors out) (vectors e).
Proof.
  intros Hb Hwfb Hsq He Hwf.
  apply trailing_dim_Some in He. destruct He as [lead He].
  pose proof (vector_length b n Hb Hwfb) as Hl.
  rewrite (inner_self b n Hl) in *.
  rewrite (Hard_forward_run self e b lead n st He Hb).
  eexists. split; [reflexivity|].
  apply (vectors_pairwise _ e lead n); [reflexivity|exact He|].
  intros i Hi.
  assert (Hin : ((i + 1) * n <= length (data e))%nat).
  { unfold well_formed in Hwf. rewrite Hwf, He, numel_snoc. nia. }
  assert (Hsquare :
            inner (vector_at e n i) (vector_at e n i)
            = sum_upto n (fun t => item e (i * n + t) * item e (i * n + t))).
  { rewrite (inner_sum _ _ n) by now apply length_vector_at.
    apply sum_upto_ext. intros t Ht. now rewrite nth_vector_at. }
  match goal with
  | |- inner (vector_at ?o n i) _ = _ /\ _ =>
      assert (Hout : inner (vector_at o n i) (vector_at o n i)
                     = sum_upto n (fun t => hard_entry e b n (i * n + t)
                                            * hard_entry e b n (i * n + t)))
  end.
  { rewrite (inner_sum _ _ n).
    - apply sum_upto_ext. intros t Ht. rewrite nth_vector_at by exact Ht.
      now rewrite item_entries by now apply row_entry_bound.
    - apply length_vector_at. cbn [data].
      rewrite length_map, length_seq. nia.
    - apply length_vector_at. cbn [data].
      rewrite length_map, length_seq. nia. }
  rewrite Hout, Hsquare, (row_dot_inner e b lead n i He Hwf Hl Hi).
  rewrite (hard_row_square e b n i Hsq).
  split; [reflexivity|].
  apply Qc_sub_nonneg_le, Qc_square_over_nonneg; [|exact Hsq].
  apply sum_squares_nonneg.
Qed.

Lemma tracked_swap (g re r1 r2 : bool) :
  g && (g && (re || r1) || r2) = g && (g && (re || r2) || r1).
Proof. now destruct g, re, r1, r2. Qed.

(** An entry after debiasing along [b1] and then along [b2], when
    [b1 . b2 = 0]. *)
Lemma hard_then_hard_entry (e b1 b2 : tensor Qc) (lead : list nat) (g : bool)
      (n k : nat) :
  sq_norm b1 n <> 0 ->
  sq_norm b2 n <> 0 ->
  sum_upto n (fun t => item b1 t * item b2 t) = 0 ->
  (k < numel lead * n)%nat ->
  hard_entry {| shape := lead ++ [n];
                data := map (hard_entry e b1 n) (seq 0 (numel lead * n));
                Torch.requires_grad := g |} b2 n k
  = item e k
    - row_dot e b1 n (k / n) * item b1 (k mod n) / sq_norm b1 n
    - row_dot e b2 n (k / n) * item b2 (k mod n) / sq_norm b2 n.
Proof.
  intros H1 H2 H12 Hk.
  assert (Hq : (k / n < numel lead)%nat).
  { apply Nat.Div0.div_lt_upper_bound. lia. }
  unfold hard_entry at 1.
  rewrite item_entries by exact Hk.
  rewrite row_dot_entries by exact Hq.
  rewrite (hard_row_against e b1 (item b2) n (k / n) H1), H12.
  change (sum_upto n (fun t => item e (k / n * n + t) * item b2 t))
    with (row_dot e b2 n (k / n)).
  unfold hard_entry. qc_ops. field. split; assumption.
Qed.

(** X14. Two directions with [b1 . b2 = 0] can be removed in either order:
    [HardDebiaser] along [b1] and then along [b2] returns the same tensor as
    along [b2] and then along [b1], and every vector of it has inner product
    0 with both. *)
Theorem hard_orthogonal_directions_commute
        (self : Debiaser) (e b1 b2 : tensor Qc) (n : nat) (st : state) :
  shape b1 = [n] ->
  shape b2 = [n] ->
  well_formed b1 ->
  well_formed b2 ->
  inner (data b1) (data b1) <> 0 ->
  inner (data b2) (data b2) <> 0 ->
  inner (data b1) (data b2) = 0 ->
  trailing_dim e = Some n ->
  exists o1 o2 o,
    HardDebiaser.forward self e b1 st = (Ok o1, st)
    /\ HardDebiaser.forward self e b2 st = (Ok o2, st)
    /\ HardDebiaser.forward self o1 b2 st = (Ok o, st)
    /\ HardDebiaser.forward self o2 b1 st = (Ok o, st)
    /\ Forall (fun v => inner v (data b1) = 0 /\ inner v (data b2) = 0)
              (vectors o).
Proof.
  intros Hb1 Hb2 Hwf1 Hwf2 Hs1 Hs2 H12 He.
  apply trailing_dim_Some in He. destruct He as [lead He].
  pose proof (vector_length b1 n Hb1 Hwf1) as Hl1.
  pose proof (vector_length b2 n Hb2 Hwf2) as Hl2.
  rewrite (inner_self b1 n Hl1) in Hs1.
  rewrite (inner_self b2 n Hl2) in Hs2.
  rewrite (inner_sum _ _ n Hl1 Hl2) in H12.
  change (sum_upto n (fun t => item b1 t * item b2 t) = 0) in H12.
  assert (H21 : sum_upto n (fun t => item b2 t * item b1 t) = 0)
    by now rewrite sum_upto_comm.
  rewrite (Hard_forward_run self e b1 lead n st He Hb1).
  rewrite (Hard_forward_run self e b2 lead n st He Hb2).
  eexists. eexists. eexists.
  split; [reflexivity|]. split; [reflexivity|].
  match goal with
  | |- HardDebiaser.forward _ ?o _ _ = _ /\ _ =>
      rewrite (Hard_forward_run self o b2 lead n st (eq_refl (lead ++ [n]))
                                Hb2)
  end.
  split; [reflexivity|].
  match goal with
  | |- HardDebiaser.forward _ ?o _ _ = _ /\ _ =>
      rewrite (Hard_forward_run self o b1 lead n st (eq_refl (lead ++ [n]))
                                Hb1)
  end.
  match goal with
  | |- (Ok {| shape := _; data := ?d21; Torch.requires_grad := _ |}, _)
       = (Ok {| shape := _; data := ?d12; Torch.requires_grad := _ |}, _)
       /\ _ =>
      assert (Hdata : d21 = d12)
  end.
  { apply map_ext_in. intros k Hk. apply in_seq in Hk.
    rewrite !hard_then_hard_entry by (assumption || lia).
    ring. }
  split.
  - rewrite Hdata. do 2 f_equal. f_equal. cbn [Torch.requires_grad].
    apply tracked_swap.
  - apply (vectors_run _ lead n); [reflexivity|].
    intros i Hi. split.
    + rewrite <- Hdata.
      rewrite inner_entries by assumption. now apply hard_row_dot.
    + rewrite inner_entries by assumption. now apply hard_row_dot.
Qed.

End Projections.

(** ** Special values *)

Section SpecialValues.

Lemma sum_upto_nan (n t0 : nat) (f : nat -> ieee) :
  t0 < n -> f t0 = NaN -> sum_upto n f = NaN.
Proof.
  induction n as [|n IH]; intros Ht Hf; [lia|].
  simpl. destruct (Nat.eq_dec t0 n) as [->|Hne].
  - rewrite Hf. now destruct (sum_upto n f).
  - now rewrite IH by (assumption || lia).
Qed.

Lemma map_const_repeat {B C : Type} (c : C) (l : list B) :
  map (fun _ => c) l = repeat c (length l).
Proof. induction l as [|a l IH]; simpl; [reflexivity|]. now rewrite IH. Qed.

Lemma nan_in_vector (e : tensor ieee) (n i : nat) :
  (i + 1) * n <= length (data e) ->
  In NaN (vector_at e n i) ->
  exists t0, t0 < n /\ item e (i * n + t0) = NaN.
Proof.
  intros Hl Hin.
  destruct (In_nth _ _ szero Hin) as [t0 [Ht Hnth]].
  rewrite length_vector_at in Ht by exact Hl.
  exists t0. split; [exact Ht|].
  now rewrite <- nth_vector_at by exact Ht.
Qed.

Lemma row_dot_nan (e b : tensor ieee) (n i t0 : nat) :
  t0 < n -> item e (i * n + t0) = NaN -> row_dot e b n i = NaN.
Proof.
  intros Ht Hnan. unfold row_dot.
  apply (sum_upto_nan n t0); [exact Ht|]. now rewrite Hnan.
Qed.

(** X15. A not-a-number anywhere in a vector of the embeddings makes the
    whole corresponding vector of the result not-a-number, in both variants
    and for every direction of matching length. *)
Theorem nan_spreads_over_its_vector (self : Debiaser) (e b : tensor ieee)
        (lead : list nat) (n i : nat) (st : state) :
  shape b = [n] ->
  shape e = lead ++ [n] ->
  well_formed e ->
  i < numel lead ->
  In NaN (vector_at e n i) ->
  (exists out, HardDebiaser.forward self e b st = (Ok out, st)
               /\ vector_at out n i = repeat NaN n)
  /\ (exists out, LinearDebiaser.forward self e b st = (Ok out, st)
                  /\ vector_at out n i = repeat NaN n).
Proof.
  intros Hb He Hwf Hi Hin.
  assert (Hl : (i + 1) * n <= length (data e)).
  { unfold well_formed in Hwf. rewrite Hwf, He, numel_snoc. nia. }
  destruct (nan_in_vector e n i Hl Hin) as [t0 [Ht0 Hnan]].
  pose proof (row_dot_nan e b n i t0 Ht0 Hnan) as Hrow.
  split.
  - rewrite (Hard_forward_run self e b lead n st He Hb).
    eexists. split; [reflexivity|].
    rewrite vector_at_entries by exact Hi.
    replace (repeat NaN n) with (map (fun _ : nat => NaN) (seq 0 n))
      by now rewrite map_const_repeat, length_seq.
    apply map_ext_in. intros t Ht. apply in_seq in Ht.
    unfold hard_entry.
    destruct (row_index_nat i n t) as [-> ->]; [lia|].
    rewrite Hrow. cbn [ssub sdiv smul ieee_Scalar ieee_mul ieee_div].
    apply sub_nan.
  - rewrite (Linear_forward_run self e b lead n st He Hb).
    eexists. split; [reflexivity|].
    rewrite vector_at_entries by exact Hi.
    replace (repeat NaN n) with (map (fun _ : nat => NaN) (seq 0 n))
      by now rewrite map_const_repeat, length_seq.
    apply map_ext_in. intros t Ht. apply in_seq in Ht.
    unfold linear_entry.
    destruct (row_index_nat i n t) as [-> ->]; [lia|].
    rewrite Hrow. cbn [ssub smul ieee_Scalar ieee_mul].
    apply sub_nan.
Qed.

End SpecialValues.

(** ** Instances of the further properties *)

Section FurtherInstances.

Local Open Scope Qc_scope.

Ltac qc_differ E :=
  apply (f_equal this) in E; vm_compute in E; discriminate E.

Ltac qc_same := apply Qc_is_canon; vm_compute; reflexivity.

Lemma ones2_perp2 : inner (data ones2) (data perp2) = 0.
Proof. qc_same. Defined.

Lemma perp2_norm : inner (data perp2) (data perp2) <> 0.
Proof. intros E. qc_differ E. Defined.

Lemma three_nonzero : qc 3 1 <> 0.
Proof. intros E. qc_differ E. Defined.

Lemma perp_batch_orthogonal :
  Forall (fun v => inner v (data ones2) = 0) (vectors perp_batch).
Proof. repeat constructor; qc_same. Defined.

Lemma row_ones2_not_vector : forall n, shape row_ones2 <> [n].
Proof. intros n. discriminate. Defined.

Lemma forward_tracking_witness :
  shape axis2 = [2%nat] /\ trailing_dim tracked34 = Some 2%nat
  /\ (exists out,
        HardDebiaser.forward with_grad tracked34 axis2 grad_off
        = (Ok out, grad_off)
        /\ Torch.requires_grad out
           = requires_grad with_grad
             && (Torch.requires_grad tracked34 || Torch.requires_grad axis2))
  /\ (exists out,
        LinearDebiaser.forward with_grad tracked34 axis2 grad_off
        = (Ok out, grad_off)
        /\ Torch.requires_grad out
           = requires_grad with_grad
             && (Torch.requires_grad tracked34 || Torch.requires_grad axis2)).
Proof.
  split; [reflexivity|]. split; [reflexivity|].
  apply (forward_tracking with_grad tracked34 axis2 2 grad_off); reflexivity.
Defined.

Lemma default_debiaser_does_not_track_witness :
  shape axis2 = [2%nat] /\ trailing_dim tracked34 = Some 2%nat
  /\ (exists hard linear,
        HardDebiaser.forward (__init__ None) tracked34 axis2 grad_on
        = (Ok hard, grad_on)
        /\ LinearDebiaser.forward (__init__ None) tracked34 axis2 grad_on
           = (Ok linear, grad_on)
        /\ Torch.requires_grad hard = false
        /\ Torch.requires_grad linear = false)
  /\ (exists hard linear,
        HardDebiaser.forward (__init__ (Some true)) tracked34 axis2 grad_on
        = (Ok hard, grad_on)
        /\ LinearDebiaser.forward (__init__ (Some true)) tracked34 axis2
                                  grad_on
           = (Ok linear, grad_on)
        /\ Torch.requires_grad hard
           = (Torch.requires_grad tracked34 || Torch.requires_grad axis2)
        /\ Torch.requires_grad linear
           = (Torch.requires_grad tracked34 || Torch.requires_grad axis2)).
Proof.
  split; [reflexivity|]. split; [reflexivity|].
  apply (default_debiaser_does_not_track tracked34 axis2 2 grad_on);
    reflexivity.
Defined.

Lemma hard_needs_vector_direction_witness :
  (forall n, shape row_ones2 <> [n])
  /\ HardDebiaser.forward plain eye2 row_ones2 grad_on
     = (Raise ShapeMismatch, grad_on).
Proof.
  split; [apply row_ones2_not_vector|].
  apply (hard_needs_vector_direction plain eye2 row_ones2 grad_on).
  apply row_ones2_not_vector.
Defined.

Lemma linear_accepts_row_direction_witness :
  shape row_ones2 = [1%nat; 2%nat] /\ shape eye2 = [] ++ [2%nat; 2%nat]
  /\ LinearDebiaser.forward plain eye2 row_ones2 grad_on
     = LinearDebiaser.forward plain eye2 (as_vector 2 row_ones2) grad_on
  /\ exists out,
       LinearDebiaser.forward plain eye2 row_ones2 grad_on = (Ok out, grad_on)
       /\ shape out = shape eye2.
Proof.
  split; [reflexivity|]. split; [reflexivity|].
  apply (linear_accepts_row_direction plain eye2 row_ones2 [] 2 2 grad_on);
    reflexivity.
Defined.

Lemma forward_vector_by_vector_witness :
  shape ones2 = [2%nat] /\ shape batch212 = [2%nat; 1%nat] ++ [2%nat]
  /\ well_formed batch212 /\ (1 < numel [2; 1])%nat
  /\ (exists out one,
        HardDebiaser.forward plain batch212 ones2 grad_on = (Ok out, grad_on)
        /\ HardDebiaser.forward
             plain
             (vector_tensor (vector_at batch212 2 1)
                            (Torch.requires_grad batch212))
             ones2 grad_on
           = (Ok one, grad_on)
        /\ data one = vector_at out 2 1)
  /\ (exists out one,
        LinearDebiaser.forward plain batch212 ones2 grad_on
        = (Ok out, grad_on)
        /\ LinearDebiaser.forward
             plain
             (vector_tensor (vector_at batch212 2 1)
                            (Torch.requires_grad batch212))
             ones2 grad_on
           = (Ok one, grad_on)
        /\ data one = vector_at out 2 1).
Proof.
  split; [reflexivity|]. split; [reflexivity|]. split; [reflexivity|].
  split; [simpl; lia|].
  apply (forward_vector_by_vector plain batch212 ones2 [2; 1]%nat 2 1
                                  grad_on);
    try reflexivity.
  simpl. lia.
Defined.

Lemma forward_ignores_leading_sizes_witness :
  shape ones2 = [2%nat] /\ shape batch212 = [2%nat; 1%nat] ++ [2%nat]
  /\ shape batch22 = [2%nat] ++ [2%nat]
  /\ data batch22 = data batch212
  /\ numel [2%nat] = numel [2%nat; 1%nat]
  /\ (exists out out',
        HardDebiaser.forward plain batch212 ones2 grad_on = (Ok out, grad_on)
        /\ HardDebiaser.forward plain batch22 ones2 grad_on
           = (Ok out', grad_on)
        /\ shape out = shape batch212 /\ shape out' = shape batch22
        /\ data out' = data out)
  /\ (exists out out',
        LinearDebiaser.forward plain batch212 ones2 grad_on
        = (Ok out, grad_on)
        /\ LinearDebiaser.forward plain batch22 ones2 grad_on
           = (Ok out', grad_on)
        /\ shape out = shape batch212 /\ shape out' = shape batch22
        /\ data out' = data out).
Proof.
  split; [reflexivity|]. split; [reflexivity|]. split; [reflexivity|].
  split; [reflexivity|]. split; [reflexivity|].
  apply (forward_ignores_leading_sizes plain batch212 batch22 ones2
                                       [2; 1]%nat [2]%nat 2 grad_on);
    reflexivity.
Defined.

Lemma forward_fixes_orthogonal_witness :
  shape ones2 = [2%nat] /\ well_formed ones2
  /\ trailing_dim perp_batch = Some 2%nat /\ well_formed perp_batch
  /\ Forall (fun v => inner v (data ones2) = 0) (vectors perp_batch)
  /\ inner (data ones2) (data ones2) <> 0
  /\ (exists out,
        HardDebiaser.forward plain perp_batch ones2 grad_on
        = (Ok out, grad_on)
        /\ shape out = shape perp_batch /\ data out = data perp_batch)
  /\ (exists out,
        LinearDebiaser.forward plain perp_batch ones2 grad_on
        = (Ok out, grad_on)
        /\ shape out = shape perp_batch /\ data out = data perp_batch).
Proof.
  pose proof (forward_fixes_orthogonal plain perp_batch ones2 2 grad_on
                eq_refl eq_refl eq_refl eq_refl perp_batch_orthogonal) as P.
  split; [reflexivity|]. split; [reflexivity|]. split; [reflexivity|].
  split; [reflexivity|]. split; [apply perp_batch_orthogonal|].
  split; [apply ones2_norm|].
  split; [apply (proj1 P), ones2_norm|apply (proj2 P)].
Defined.

Lemma linear_residual_witness :
  shape ones2 = [2%nat] /\ well_formed ones2
  /\ trailing_dim eye2 = Some 2%nat /\ well_formed eye2
  /\ exists out,
       LinearDebiaser.forward plain eye2 ones2 grad_on = (Ok out, grad_on)
       /\ Forall2 (fun vo ve =>
                     inner vo (data ones2)
                     = inner ve (data ones2)
                       * (1 - inner (data ones2) (data ones2)))
                  (vectors out) (vectors eye2).
Proof.
  split; [reflexivity|]. split; [reflexivity|]. split; [reflexivity|].
  split; [reflexivity|].
  apply (linear_residual plain eye2 ones2 2 grad_on); reflexivity.
Defined.

Lemma forward_keeps_complement_witness :
  shape ones2 = [2%nat] /\ well_formed ones2
  /\ trailing_dim batch212 = Some 2%nat /\ well_formed batch212
  /\ length (data perp2) = 2%nat
  /\ inner (data ones2) (data perp2) = 0
  /\ inner (data ones2) (data ones2) <> 0
  /\ (exists out,
        HardDebiaser.forward plain batch212 ones2 grad_on = (Ok out, grad_on)
        /\ Forall2 (fun vo ve => inner vo (data perp2) = inner ve (data perp2))
                   (vectors out) (vectors batch212))
  /\ (exists out,
        LinearDebiaser.forward plain batch212 ones2 grad_on
        = (Ok out, grad_on)
        /\ Forall2 (fun vo ve => inner vo (data perp2) = inner ve (data perp2))
                   (vectors out) (vectors batch212)).
Proof.
  pose proof (forward_keeps_complement plain batch212 ones2 (data perp2) 2
                grad_on eq_refl eq_refl eq_refl eq_refl eq_refl ones2_perp2)
    as P.
  split; [reflexivity|]. split; [reflexivity|]. split; [reflexivity|].
  split; [reflexivity|]. split; [reflexivity|].
  split; [apply ones2_perp2|]. split; [apply ones2_norm|].
  split; [apply (proj1 P), ones2_norm|apply (proj2 P)].
Defined.

Lemma hard_scale_invariant_witness :
  shape ones2 = [2%nat] /\ well_formed ones2
  /\ inner (data ones2) (data ones2) <> 0 /\ qc 3 1 <> 0
  /\ HardDebiaser.forward plain batch212 (scaled (qc 3 1) ones2) grad_on
     = HardDebiaser.forward plain batch212 ones2 grad_on.
Proof.
  split; [reflexivity|]. split; [reflexivity|].
  split; [apply ones2_norm|]. split; [apply three_nonzero|].
  apply (hard_scale_invariant plain batch212 ones2 (qc 3 1) 2 grad_on);
    try reflexivity; [apply ones2_norm|apply three_nonzero].
Defined.

Lemma linear_after_hard_witness :
  shape ones2 = [2%nat] /\ well_formed ones2
  /\ inner (data ones2) (data ones2) <> 0
  /\ trailing_dim batch212 = Some 2%nat
  /\ exists out,
       HardDebiaser.forward plain batch212 ones2 grad_on = (Ok out, grad_on)
       /\ LinearDebiaser.forward plain out ones2 grad_on = (Ok out, grad_on).
Proof.
  split; [reflexivity|]. split; [reflexivity|].
  split; [apply ones2_norm|]. split; [reflexivity|].
  apply (linear_after_hard plain batch212 ones2 2 grad_on);
    try reflexivity; apply ones2_norm.
Defined.

Lemma forward_linear_witness :
  shape ones2 = [2%nat] /\ well_formed ones2
  /\ shape eye2 = [2%nat] ++ [2%nat] /\ shape antidiag2 = [2%nat] ++ [2%nat]
  /\ well_formed eye2 /\ well_formed antidiag2
  /\ inner (data ones2) (data ones2) <> 0
  /\ (exists o1 o2 o,
        HardDebiaser.forward plain eye2 ones2 grad_on = (Ok o1, grad_on)
        /\ HardDebiaser.forward plain antidiag2 ones2 grad_on
           = (Ok o2, grad_on)
        /\ HardDebiaser.forward
             plain (lincomb (qc 3 1) eye2 (qc (-1) 2) antidiag2) ones2 grad_on
           = (Ok o, grad_on)
        /\ shape o = shape eye2
        /\ data o = data (lincomb (qc 3 1) o1 (qc (-1) 2) o2))
  /\ (exists o1 o2 o,
        LinearDebiaser.forward plain eye2 ones2 grad_on = (Ok o1, grad_on)
        /\ LinearDebiaser.forward plain antidiag2 ones2 grad_on
           = (Ok o2, grad_on)
        /\ LinearDebiaser.forward
             plain (lincomb (qc 3 1) eye2 (qc (-1) 2) antidiag2) ones2 grad_on
           = (Ok o, grad_on)
        /\ shape o = shape eye2
        /\ data o = data (lincomb (qc 3 1) o1 (qc (-1) 2) o2)).
Proof.
  pose proof (forward_linear plain eye2 antidiag2 ones2 (qc 3 1) (qc (-1) 2)
                [2]%nat 2 grad_on
                eq_refl eq_refl eq_refl eq_refl eq_refl eq_refl) as P.
  split; [reflexivity|]. split; [reflexivity|]. split; [reflexivity|].
  split; [reflexivity|]. split; [reflexivity|]. split; [reflexivity|].
  split; [apply ones2_norm|].
  split; [apply (proj1 P), ones2_norm|apply (proj2 P)].
Defined.

Lemma hard_shortens_witness :
  shape ones2 = [2%nat] /\ well_formed ones2
  /\ inner (data ones2) (data ones2) <> 0
  /\ trailing_dim batch212 = Some 2%nat /\ well_formed batch212
  /\ exists out,
       HardDebiaser.forward plain batch212 ones2 grad_on = (Ok out, grad_on)
       /\ Forall2 (fun vo ve =>
                     inner vo vo
                     = inner ve ve
                       - inner ve (data ones2) * inner ve (data ones2)
                         / inner (data ones2) (data ones2)
                     /\ inner vo vo <= inner ve ve)
                  (vectors out) (vectors batch212).
Proof.
  split; [reflexivity|]. split; [reflexivity|].
  split; [apply ones2_norm|]. split; [reflexivity|]. split; [reflexivity|].
  apply (hard_shortens plain batch212 ones2 2 grad_on);
    try reflexivity; apply ones2_norm.
Defined.

Lemma hard_orthogonal_directions_commute_witness :
  shape ones2 = [2%nat] /\ shape perp2 = [2%nat]
  /\ well_formed ones2 /\ well_formed perp2
  /\ inner (data ones2) (data ones2) <> 0
  /\ inner (data perp2) (data perp2) <> 0
  /\ inner (data ones2) (data perp2) = 0
  /\ trailing_dim batch212 = Some 2%nat
  /\ exists o1 o2 o,
       HardDebiaser.forward plain batch212 ones2 grad_on = (Ok o1, grad_on)
       /\ HardDebiaser.forward plain batch212 perp2 grad_on = (Ok o2, grad_on)
       /\ HardDebiaser.forward plain o1 perp2 grad_on = (Ok o, grad_on)
       /\ HardDebiaser.forward plain o2 ones2 grad_on = (Ok o, grad_on)
       /\ Forall (fun v => inner v (data ones2) = 0
                           /\ inner v (data perp2) = 0)
                 (vectors o).
Proof.
  split; [reflexivity|]. split; [reflexivity|]. split; [reflexivity|].
  split; [reflexivity|]. split; [apply ones2_norm|].
  split; [apply perp2_norm|]. split; [apply ones2_perp2|].
  split; [reflexivity|].
  exact (hard_orthogonal_directions_commute
           plain batch212 ones2 perp2 2 grad_on
           eq_refl eq_refl eq_refl eq_refl
           ones2_norm perp2_norm ones2_perp2 eq_refl).
Defined.

Lemma nan_spreads_over_its_vector_witness :
  shape (float_of ones2) = [2%nat] /\ shape nan_batch = [2%nat] ++ [2%nat]
  /\ well_formed nan_batch /\ (0 < numel [2])%nat
  /\ In NaN (vector_at nan_batch 2 0)
  /\ (exists out,
        HardDebiaser.forward plain nan_batch (float_of ones2) grad_on
        = (Ok out, grad_on)
        /\ vector_at out 2 0 = repeat NaN 2)
  /\ (exists out,
        LinearDebiaser.forward plain nan_batch (float_of ones2) grad_on
        = (Ok out, grad_on)
        /\ vector_at out 2 0 = repeat NaN 2).
Proof.
  assert (Hin : In NaN (vector_at nan_batch 2 0))
    by (simpl; right; left; reflexivity).
  split; [reflexivity|]. split; [reflexivity|]. split; [reflexivity|].
  split; [simpl; lia|]. split; [exact Hin|].
  apply (nan_spreads_over_its_vector plain nan_batch (float_of ones2)
                                     [2]%nat 2 0 grad_on);
    try reflexivity; [simpl; lia|exact Hin].
Defined.

End FurtherInstances.
